(** * STOMP frames: a shallow embedding of [esm5/frame.js]

    The development follows the source file function by function:
    JavaScript strings are sequences of UTF-16 code units, a [Uint8Array]
    is a sequence of bytes, the [headers] object is an association list
    in the order of its property names, and the methods that write to [this]
    (the lazy [binaryBody] getter, the [delete] in
    [serializeCmdAndHeaders], the in-place [reverse] in [fromRawFrame])
    are state transformers.

    Modelling conventions for the host language:
    - [headers] is an ordinary object (its prototype is
      [Object.prototype]): the association list holds its own
      properties in the order of [Object.keys], array indices in
      ascending order first, then the other names in insertion order;
      an assignment to the name [__proto__] reaches the inherited
      setter, which ignores a string;
    - a header value is a string, as the declared type of the headers
      says. *)

From Stdlib Require Import String Ascii NArith ZArith List Bool Lia DecimalN DecimalPos.
Import ListNotations.
Local Close Scope string_scope.
Local Open Scope Z_scope.

(** ** JavaScript strings *)

(** A UTF-16 code unit, 0 .. 65535. *)
Definition code_unit := Z.
Definition jsstring := list code_unit.
Definition bytes := list Z.

Definition js (s : string) : jsstring :=
  map (fun a => Z.of_N (N_of_ascii a)) (list_ascii_of_string s).
Arguments js s%_string.

Definition NULL : code_unit := 0.
Definition LF : code_unit := 10.
Definition CR : code_unit := 13.
Definition COLON : code_unit := 58.
Definition BACKSLASH : code_unit := 92.
Definition LETTER_c : code_unit := 99.
Definition LETTER_n : code_unit := 110.
Definition LETTER_r : code_unit := 114.

Fixpoint str_eqb (s t : jsstring) : bool :=
  match s, t with
  | [], [] => true
  | a :: s', b :: t' => (a =? b) && str_eqb s' t'
  | _, _ => false
  end.

(** [str.replace(/x/g, rep)] for a pattern of one character. *)
Fixpoint replace_char (x : code_unit) (rep : jsstring) (s : jsstring) : jsstring :=
  match s with
  | [] => []
  | a :: t => if a =? x then rep ++ replace_char x rep t
              else a :: replace_char x rep t
  end.

(** [str.replace(/xy/g, rep)] for a pattern of two characters: the
    matches are found from left to right and do not overlap. *)
Fixpoint replace_pair (x y : code_unit) (rep : jsstring) (s : jsstring) : jsstring :=
  match s with
  | [] => []
  | a :: t =>
      match t with
      | [] => [a]
      | b :: u => if (a =? x) && (b =? y) then rep ++ replace_pair x y rep u
                  else a :: replace_pair x y rep t
      end
  end.

(** The class [\s] of a JavaScript regular expression. *)
Definition is_space (c : code_unit) : bool :=
  ((9 <=? c) && (c <=? 13)) || (c =? 32) || (c =? 160) || (c =? 5760)
  || ((8192 <=? c) && (c <=? 8202)) || (c =? 8232) || (c =? 8233)
  || (c =? 8239) || (c =? 8287) || (c =? 12288) || (c =? 65279).

Fixpoint drop_spaces (s : jsstring) : jsstring :=
  match s with
  | [] => []
  | a :: t => if is_space a then drop_spaces t else s
  end.

(** [str.replace(/^\s+|\s+$/g, '')] *)
Definition trim (str : jsstring) : jsstring :=
  rev (drop_spaces (rev (drop_spaces str))).

(** [lines.join(sep)] *)
Fixpoint join (sep : code_unit) (lines : list jsstring) : jsstring :=
  match lines with
  | [] => []
  | [l] => l
  | l :: rest => l ++ sep :: join sep rest
  end.

(** ** Header value escaping *)

Definition hdrValueEscape (str : jsstring) : jsstring :=
  replace_char COLON [BACKSLASH; LETTER_c]
    (replace_char LF [BACKSLASH; LETTER_n]
       (replace_char CR [BACKSLASH; LETTER_r]
          (replace_char BACKSLASH [BACKSLASH; BACKSLASH] str))).

Definition hdrValueUnEscape (str : jsstring) : jsstring :=
  replace_pair BACKSLASH BACKSLASH [BACKSLASH]
    (replace_pair BACKSLASH LETTER_c [COLON]
       (replace_pair BACKSLASH LETTER_n [LF]
          (replace_pair BACKSLASH LETTER_r [CR] str))).

(** ** The platform's UTF-8 codec and byte arrays *)

Definition is_high_surrogate (c : code_unit) : bool := (0xD800 <=? c) && (c <=? 0xDBFF).
Definition is_low_surrogate (c : code_unit) : bool := (0xDC00 <=? c) && (c <=? 0xDFFF).

(** The UTF-8 bytes of one scalar value. *)
Definition utf8_bytes (c : Z) : bytes :=
  if c <? 0x80 then [c]
  else if c <? 0x800 then
    [Z.lor 0xC0 (Z.shiftr c 6); Z.lor 0x80 (Z.land c 0x3F)]
  else if c <? 0x10000 then
    [Z.lor 0xE0 (Z.shiftr c 12); Z.lor 0x80 (Z.land (Z.shiftr c 6) 0x3F);
     Z.lor 0x80 (Z.land c 0x3F)]
  else
    [Z.lor 0xF0 (Z.shiftr c 18); Z.lor 0x80 (Z.land (Z.shiftr c 12) 0x3F);
     Z.lor 0x80 (Z.land (Z.shiftr c 6) 0x3F); Z.lor 0x80 (Z.land c 0x3F)].

Definition surrogate_pair (hi lo : code_unit) : Z :=
  0x10000 + Z.shiftl (hi - 0xD800) 10 + (lo - 0xDC00).

(** The scalar values of a string, as the conversion to a [USVString]
    gives them: a surrogate pair is one scalar value, a lone surrogate
    becomes U+FFFD. *)
Fixpoint USVString (s : jsstring) : list Z :=
  match s with
  | [] => []
  | c :: t =>
      if is_high_surrogate c then
        match t with
        | [] => [0xFFFD]
        | d :: u => if is_low_surrogate d
                    then surrogate_pair c d :: USVString u
                    else 0xFFFD :: USVString t
        end
      else if is_low_surrogate c then 0xFFFD :: USVString t
      else c :: USVString t
  end.

(** [new TextEncoder().encode(s)] *)
Definition TextEncoder_encode (s : jsstring) : bytes :=
  flat_map utf8_bytes (USVString s).

(** The decoder's state between two bytes: the code point read so far,
    the number of continuation bytes still expected and the bounds of
    the next one. *)
Record utf8_state := {
  code_point : Z;
  bytes_needed : Z;
  lower_boundary : Z;
  upper_boundary : Z
}.

Definition utf8_start : utf8_state :=
  {| code_point := 0; bytes_needed := 0; lower_boundary := 0x80; upper_boundary := 0xBF |}.

(** A byte read when no continuation byte is expected: the code points
    it yields and the next state. *)
Definition utf8_lead (b : Z) : list Z * utf8_state :=
  if (0 <=? b) && (b <=? 0x7F) then ([b], utf8_start)
  else if (0xC2 <=? b) && (b <=? 0xDF) then
    ([], {| code_point := Z.land b 0x1F; bytes_needed := 1;
            lower_boundary := 0x80; upper_boundary := 0xBF |})
  else if (0xE0 <=? b) && (b <=? 0xEF) then
    ([], {| code_point := Z.land b 0xF; bytes_needed := 2;
            lower_boundary := if b =? 0xE0 then 0xA0 else 0x80;
            upper_boundary := if b =? 0xED then 0x9F else 0xBF |})
  else if (0xF0 <=? b) && (b <=? 0xF4) then
    ([], {| code_point := Z.land b 0x7; bytes_needed := 3;
            lower_boundary := if b =? 0xF0 then 0x90 else 0x80;
            upper_boundary := if b =? 0xF4 then 0x8F else 0xBF |})
  else ([0xFFFD], utf8_start).

(** One byte through the decoder in replacement mode: an ill-formed
    sequence yields U+FFFD, and the byte that ended it is read again
    as a first byte. *)
Definition utf8_step (st : utf8_state) (b : Z) : list Z * utf8_state :=
  if bytes_needed st =? 0 then utf8_lead b
  else if (b <? lower_boundary st) || (upper_boundary st <? b) then
    (0xFFFD :: fst (utf8_lead b), snd (utf8_lead b))
  else
    let cp := Z.lor (Z.shiftl (code_point st) 6) (Z.land b 0x3F) in
    if bytes_needed st =? 1 then ([cp], utf8_start)
    else ([], {| code_point := cp; bytes_needed := bytes_needed st - 1;
                 lower_boundary := 0x80; upper_boundary := 0xBF |}).

Fixpoint utf8_decode (st : utf8_state) (bs : bytes) : list Z :=
  match bs with
  | [] => if bytes_needed st =? 0 then [] else [0xFFFD]
  | b :: t => fst (utf8_step st b) ++ utf8_decode (snd (utf8_step st b)) t
  end.

Definition utf16_units (c : Z) : jsstring :=
  if c <? 0x10000 then [c]
  else [0xD800 + Z.shiftr (c - 0x10000) 10; 0xDC00 + Z.land (c - 0x10000) 0x3FF].

Definition strip_bom (cs : list Z) : list Z :=
  match cs with
  | c :: t => if c =? 0xFEFF then t else cs
  | [] => []
  end.

(** [new TextDecoder().decode(b)]: UTF-8, not fatal, a leading byte
    order mark is dropped. *)
Definition TextDecoder_decode (b : bytes) : jsstring :=
  flat_map utf16_units (strip_bom (utf8_decode utf8_start b)).

(** [dst.set(src, offset)] on a [Uint8Array]; [None] is the
    [RangeError] of a source that does not fit. *)
Definition Uint8Array_set (dst src : bytes) (offset : nat) : option bytes :=
  if (offset + length src <=? length dst)%nat
  then Some (firstn offset dst ++ src ++ skipn (offset + length src) dst)
  else None.

(** [new Uint8Array(n)] *)
Definition Uint8Array_new (n : nat) : bytes := repeat 0 n.

(** Decimal digits of a length, as ["" + n] prints it. *)
Fixpoint digits (d : Decimal.uint) : jsstring :=
  match d with
  | Decimal.Nil => []
  | Decimal.D0 d => 48 :: digits d
  | Decimal.D1 d => 49 :: digits d
  | Decimal.D2 d => 50 :: digits d
  | Decimal.D3 d => 51 :: digits d
  | Decimal.D4 d => 52 :: digits d
  | Decimal.D5 d => 53 :: digits d
  | Decimal.D6 d => 54 :: digits d
  | Decimal.D7 d => 55 :: digits d
  | Decimal.D8 d => 56 :: digits d
  | Decimal.D9 d => 57 :: digits d
  end.

Definition Number_toString (n : nat) : jsstring := digits (N.to_uint (N.of_nat n)).

(** ** The [headers] object *)

(** The own properties of an ordinary object, in the order in which
    [Object.keys] lists them; a name occurs once. *)
Definition obj := list (jsstring * jsstring).

Definition PROTO : jsstring := js "__proto__".

Definition is_digit (c : code_unit) : bool := (48 <=? c) && (c <=? 57).

(** The number that decimal digits denote, read after [acc]. *)
Definition digits_from (acc : Z) (s : jsstring) : Z :=
  fold_left (fun acc c => acc * 10 + (c - 48)) s acc.

Definition digits_value (s : jsstring) : Z := digits_from 0 s.

(** The array index that a property name denotes: a decimal numeral
    without a leading zero, below [2^32 - 1]. *)
Definition array_index (k : jsstring) : option Z :=
  match k with
  | [] => None
  | c :: t =>
      if forallb is_digit k
         && (negb (c =? 48) || match t with [] => true | _ => false end)
         && (digits_value k <? 2 ^ 32 - 1)
      then Some (digits_value k)
      else None
  end.

(** The own property [k] of [o]; [None] when there is none. For a name
    of [Object.keys(o)] this is [o[k]]. *)
Fixpoint obj_get (k : jsstring) (o : obj) : option jsstring :=
  match o with
  | [] => None
  | (k', v) :: t => if str_eqb k' k then Some v else obj_get k t
  end.

(** Writing an own property: it keeps its place. *)
Fixpoint obj_replace (k v : jsstring) (o : obj) : obj :=
  match o with
  | [] => []
  | (k', v') :: t => if str_eqb k' k then (k', v) :: t else (k', v') :: obj_replace k v t
  end.

(** A new array index [n] goes before the first property that is not
    a smaller array index. *)
Fixpoint obj_insert_index (n : Z) (k v : jsstring) (o : obj) : obj :=
  match o with
  | [] => [(k, v)]
  | (k', v') :: t =>
      match array_index k' with
      | Some m => if m <? n then (k', v') :: obj_insert_index n k v t
                  else (k, v) :: o
      | None => (k, v) :: o
      end
  end.

(** [o[k] = v] for a string [v]: an own property is overwritten in
    place; otherwise the name [__proto__] finds the setter of
    [Object.prototype], which does nothing with a string; any other new
    name becomes an own property, listed among the array indices in
    ascending order or else last. *)
Definition obj_set (k v : jsstring) (o : obj) : obj :=
  match obj_get k o with
  | Some _ => obj_replace k v o
  | None =>
      if str_eqb k PROTO then o
      else match array_index k with
           | Some n => obj_insert_index n k v o
           | None => o ++ [(k, v)]
           end
  end.

(** [delete o[k]] *)
Definition obj_delete (k : jsstring) (o : obj) : obj :=
  filter (fun e => negb (str_eqb (fst e) k)) o.

Definition Object_keys (o : obj) : list jsstring := map fst o.

(** [Object.assign(target, source)]: the own properties of [source]
    are assigned to [target] one by one. *)
Definition Object_assign (target source : obj) : obj :=
  fold_left (fun t e => obj_set (fst e) (snd e) t) source target.

(** A name that is neither an array index nor [__proto__]. *)
Definition plain_name (k : jsstring) : Prop :=
  k <> PROTO /\ array_index k = None.

(** A value inside a string concatenation. *)
Definition to_str (v : option jsstring) : jsstring :=
  match v with
  | Some s => s
  | None => js "undefined"
  end.

(** ** Frames *)

(** The argument of the constructor; [None] is an absent property. *)
Record FrameParams := {
  p_command : jsstring;
  p_headers : option obj;
  p_body : option jsstring;
  p_binaryBody : option bytes;
  p_escapeHeaderValues : option bool;
  p_skipContentLengthHeader : option bool
}.

Record Frame := {
  command : jsstring;
  headers : obj;
  _body : option jsstring;
  _binaryBody : option bytes;
  isBinaryBody : bool;
  escapeHeaderValues : bool;
  skipContentLengthHeader : bool
}.

(** Truth value of a property that holds an object or is absent. *)
Definition truthy {A} (v : option A) : bool :=
  match v with
  | Some _ => true
  | None => false
  end.

(** [x || d] for a string or a flag: the empty string and [false] are
    falsy and give [d], which is the empty string or [false] here. *)
Definition or_default {A} (v : option A) (d : A) : A :=
  match v with
  | Some x => x
  | None => d
  end.

(** [new Frame(params)] *)
Definition new_Frame (params : FrameParams) : Frame :=
  let hdrs := Object_assign [] (or_default (p_headers params) []) in
  if truthy (p_binaryBody params) then
    {| command := p_command params;
       headers := hdrs;
       _body := None;
       _binaryBody := p_binaryBody params;
       isBinaryBody := true;
       escapeHeaderValues := or_default (p_escapeHeaderValues params) false;
       skipContentLengthHeader := or_default (p_skipContentLengthHeader params) false |}
  else
    {| command := p_command params;
       headers := hdrs;
       _body := Some (or_default (p_body params) []);
       _binaryBody := None;
       isBinaryBody := false;
       escapeHeaderValues := or_default (p_escapeHeaderValues params) false;
       skipContentLengthHeader := or_default (p_skipContentLengthHeader params) false |}.

Definition set_headers (h : obj) (f : Frame) : Frame :=
  {| command := command f; headers := h; _body := _body f;
     _binaryBody := _binaryBody f; isBinaryBody := isBinaryBody f;
     escapeHeaderValues := escapeHeaderValues f;
     skipContentLengthHeader := skipContentLengthHeader f |}.

Definition set_body (b : option jsstring) (f : Frame) : Frame :=
  {| command := command f; headers := headers f; _body := b;
     _binaryBody := _binaryBody f; isBinaryBody := isBinaryBody f;
     escapeHeaderValues := escapeHeaderValues f;
     skipContentLengthHeader := skipContentLengthHeader f |}.

Definition set_binaryBody (b : option bytes) (f : Frame) : Frame :=
  {| command := command f; headers := headers f; _body := _body f;
     _binaryBody := b; isBinaryBody := isBinaryBody f;
     escapeHeaderValues := escapeHeaderValues f;
     skipContentLengthHeader := skipContentLengthHeader f |}.

(** *** Methods: computations that read and write [this] *)

Definition Method (A : Type) : Type := Frame -> A * Frame.

Definition ret {A} (a : A) : Method A := fun this => (a, this).

Definition bind {A B} (m : Method A) (k : A -> Method B) : Method B :=
  fun this => let (a, this') := m this in k a this'.

Definition this_ {A} (field : Frame -> A) : Method A := fun this => (field this, this).

Definition update (g : Frame -> Frame) : Method unit := fun this => (tt, g this).

Notation "x <- m ;; k" := (bind m (fun x => k))
  (at level 61, m at next level, right associativity).
Notation "m ;;; k" := (bind m (fun _ => k))
  (at level 61, right associativity).

(** The empty string and [undefined] are falsy. *)
Definition truthy_str (v : option jsstring) : bool :=
  match v with
  | Some (_ :: _) => true
  | _ => false
  end.

(** getter [body] *)
Definition body : Method (option jsstring) :=
  b <- this_ _body ;;
  bin <- this_ isBinaryBody ;;
  (if negb (truthy_str b) && bin then
     bb <- this_ _binaryBody ;;
     update (set_body (Some (TextDecoder_decode (or_default bb []))))
   else ret tt) ;;;
  this_ _body.

(** getter [binaryBody] *)
Definition binaryBody : Method (option bytes) :=
  bb <- this_ _binaryBody ;;
  bin <- this_ isBinaryBody ;;
  (if negb (truthy bb) && negb bin then
     b <- this_ _body ;;
     update (set_binaryBody (Some (TextEncoder_encode (or_default b []))))
   else ret tt) ;;;
  this_ _binaryBody.

Definition bodyLength : Method nat :=
  binaryBody <- binaryBody ;;
  ret (match binaryBody with
       | Some b => length b
       | None => 0%nat
       end).

Definition isBodyEmpty : Method bool :=
  n <- bodyLength ;;
  ret (n =? 0)%nat.

(** *** Serialization *)

Definition CONNECT : jsstring := js "CONNECT".
Definition CONNECTED : jsstring := js "CONNECTED".
Definition content_length : jsstring := js "content-length".

(** The line pushed for the header [name_1] in the loop of
    [serializeCmdAndHeaders]. *)
Definition header_line (this : Frame) (name_1 : jsstring) : jsstring :=
  let value := obj_get name_1 (headers this) in
  if escapeHeaderValues this
     && negb (str_eqb (command this) CONNECT)
     && negb (str_eqb (command this) CONNECTED)
  then name_1 ++ [COLON] ++ hdrValueEscape (to_str value)
  else name_1 ++ [COLON] ++ to_str value.

(** The loop itself: one line for each name in [Object.keys(this.headers)]. *)
Definition header_lines : Method (list jsstring) :=
  fun this => (map (header_line this) (Object_keys (headers this)), this).

(** The array [lines] of [serializeCmdAndHeaders] when it is joined. *)
Definition serializeLines : Method (list jsstring) :=
  cmd <- this_ command ;;
  skip <- this_ skipContentLengthHeader ;;
  (if skip
   then update (fun this => set_headers (obj_delete content_length (headers this)) this)
   else ret tt) ;;;
  hl <- header_lines ;;
  let lines := [cmd] ++ hl in
  bin <- this_ isBinaryBody ;;
  emit <- (if bin then ret true
           else empty <- isBodyEmpty ;;
                skip <- this_ skipContentLengthHeader ;;
                ret (negb empty && negb skip)) ;;
  if emit : bool
  then n <- bodyLength ;;
       ret (lines ++ [content_length ++ [COLON] ++ Number_toString n])
  else ret lines.

Definition serializeCmdAndHeaders : Method jsstring :=
  lines <- serializeLines ;;
  ret (join LF lines ++ [LF] ++ [LF]).

(** [toString] *)
Definition toString : Method jsstring := serializeCmdAndHeaders.

(** [Frame.sizeOfUTF8] *)
Definition sizeOfUTF8 (s : option jsstring) : nat :=
  if truthy_str s then length (TextEncoder_encode (or_default s [])) else 0%nat.

(** [Frame.toUnit8Array]; [None] when a [set] throws. *)
Definition toUnit8Array (cmdAndHeaders : jsstring) (binaryBody : bytes) : option bytes :=
  let uint8CmdAndHeaders := TextEncoder_encode cmdAndHeaders in
  let nullTerminator := [0] in
  let uint8Frame :=
    Uint8Array_new (length uint8CmdAndHeaders + length binaryBody + length nullTerminator) in
  match Uint8Array_set uint8Frame uint8CmdAndHeaders 0 with
  | None => None
  | Some uint8Frame =>
      match Uint8Array_set uint8Frame binaryBody (length uint8CmdAndHeaders) with
      | None => None
      | Some uint8Frame =>
          Uint8Array_set uint8Frame nullTerminator
            (length uint8CmdAndHeaders + length binaryBody)
      end
  end.

(** What [serialize] hands to the socket: a string or a buffer. *)
Inductive wire :=
| Text (s : jsstring)
| Buffer (b : bytes).

(** [serialize]; [None] is a thrown error (a binary frame without its
    bytes, which the constructor never builds). *)
Definition serialize : Method (option wire) :=
  cmdAndHeaders <- serializeCmdAndHeaders ;;
  bin <- this_ isBinaryBody ;;
  if bin : bool
  then bb <- this_ _binaryBody ;;
       ret (match bb with
            | Some b => option_map Buffer (toUnit8Array cmdAndHeaders b)
            | None => None
            end)
  else b <- this_ _body ;;
       ret (Some (Text (cmdAndHeaders ++ to_str b ++ [NULL]))).

(** [Frame.marshall] *)
Definition marshall (params : FrameParams) : option wire :=
  fst (serialize (new_Frame params)).

(** *** Decoding *)

(** The raw frame handed over by the parser; a header line is the pair
    of its name and its value. *)
Record RawFrame := {
  raw_command : jsstring;
  raw_headers : list (jsstring * jsstring);
  raw_binaryBody : option bytes
}.

(** [a.reverse()] reverses the array itself. *)
Definition reverse_headers (rawFrame : RawFrame) : RawFrame :=
  {| raw_command := raw_command rawFrame;
     raw_headers := rev (raw_headers rawFrame);
     raw_binaryBody := raw_binaryBody rawFrame |}.

(** The value stored for a header line in the loop of [fromRawFrame]. *)
Definition header_value (cmd : jsstring) (escapeHeaderValues : bool)
  (header : jsstring * jsstring) : jsstring :=
  let value := trim (snd header) in
  if escapeHeaderValues && negb (str_eqb cmd CONNECT) && negb (str_eqb cmd CONNECTED)
  then hdrValueUnEscape value
  else value.

(** One turn of that loop. *)
Definition fromRawFrame_step (cmd : jsstring) (escapeHeaderValues : bool)
  (headers : obj) (header : jsstring * jsstring) : obj :=
  let key := trim (fst header) in
  obj_set key (header_value cmd escapeHeaderValues header) headers.

(** [Frame.fromRawFrame]: the new frame, and the argument as the call
    leaves it. *)
Definition fromRawFrame (rawFrame : RawFrame) (escapeHeaderValues : bool)
  : Frame * RawFrame :=
  let rawFrame := reverse_headers rawFrame in
  let _a := raw_headers rawFrame in
  let headers :=
    fold_left (fromRawFrame_step (raw_command rawFrame) escapeHeaderValues) _a [] in
  (new_Frame {| p_command := raw_command rawFrame;
                p_headers := Some headers;
                p_body := None;
                p_binaryBody := raw_binaryBody rawFrame;
                p_escapeHeaderValues := Some escapeHeaderValues;
                p_skipContentLengthHeader := None |},
   rawFrame).

(** ** The splitter of raw frames *)

(** Modelled from the spec: the splitter cuts a text at the first
    occurrence of a separator [c]; [None] when there is none. *)
Fixpoint break_at (c : Z) (s : list Z) : option (list Z * list Z) :=
  match s with
  | [] => None
  | a :: t =>
      if a =? c then Some ([], t)
      else match break_at c t with
           | Some (l, r) => Some (a :: l, r)
           | None => None
           end
  end.

(** Modelled from the spec: the splitter reads the header lines up to
    the first empty one and returns them with the text after it; [cur]
    holds the line being read, last character first. *)
Fixpoint split_lines (cur : jsstring) (s : jsstring) : option (list jsstring * jsstring) :=
  match s with
  | [] => None
  | a :: t =>
      if a =? LF then
        match cur with
        | [] => Some ([], t)
        | _ :: _ =>
            match split_lines [] t with
            | Some (ls, rest) => Some (rev cur :: ls, rest)
            | None => None
            end
        end
      else split_lines (a :: cur) t
  end.

(** Modelled from the spec: the splitter turns each header line into
    the pair of the text before and after its first colon. *)
Fixpoint header_pairs (ls : list jsstring) : option (list (jsstring * jsstring)) :=
  match ls with
  | [] => Some []
  | l :: rest =>
      match break_at COLON l, header_pairs rest with
      | Some kv, Some hs => Some (kv :: hs)
      | _, _ => None
      end
  end.

(** Modelled from the spec: the splitter reads a declared length as a
    decimal number. *)
Fixpoint undigits (s : jsstring) : option Decimal.uint :=
  match s with
  | [] => Some Decimal.Nil
  | c :: t =>
      match undigits t with
      | None => None
      | Some d =>
          if c =? 48 then Some (Decimal.D0 d) else
          if c =? 49 then Some (Decimal.D1 d) else
          if c =? 50 then Some (Decimal.D2 d) else
          if c =? 51 then Some (Decimal.D3 d) else
          if c =? 52 then Some (Decimal.D4 d) else
          if c =? 53 then Some (Decimal.D5 d) else
          if c =? 54 then Some (Decimal.D6 d) else
          if c =? 55 then Some (Decimal.D7 d) else
          if c =? 56 then Some (Decimal.D8 d) else
          if c =? 57 then Some (Decimal.D9 d) else None
      end
  end.

(** Modelled from the spec: a declared length has at least one digit. *)
Definition parse_length (s : jsstring) : option nat :=
  match s with
  | [] => None
  | _ :: _ => option_map (fun d => N.to_nat (N.of_uint d)) (undigits s)
  end.

(** Modelled from the spec: the splitter takes as body as many bytes
    as the first [content-length] line declares, which the null byte
    must follow; without such a line, the bytes before the first null
    byte. *)
Definition split_body (hs : list (jsstring * jsstring)) (rest : jsstring) : option bytes :=
  let bs := TextEncoder_encode rest in
  match obj_get content_length hs with
  | Some v =>
      match parse_length v with
      | Some n =>
          match nth_error bs n with
          | Some 0 => Some (firstn n bs)
          | _ => None
          end
      | None => None
      end
  | None => option_map fst (break_at 0 bs)
  end.

(** Modelled from the spec: the raw-frame splitter, an external
    collaborator of [frame.js] that is not part of it.  It reads the
    wire form of one frame laid out as the spec gives it: the command
    line, the header lines, an empty line, the body and the null byte
    that ends it.  A line ends with a line feed, a header line is split
    at its first colon, and a header line without a colon is rejected
    ([None]).  The body is delimited by the [content-length] header
    when there is one and by the null byte otherwise. *)
Definition split (text : jsstring) : option RawFrame :=
  match break_at LF text with
  | None => None
  | Some (cmd, rest) =>
      match split_lines [] rest with
      | None => None
      | Some (ls, rest) =>
          match header_pairs ls with
          | None => None
          | Some hs =>
              match split_body hs rest with
              | None => None
              | Some b => Some {| raw_command := cmd; raw_headers := hs;
                                  raw_binaryBody := Some b |}
              end
          end
      end
  end.

(** [decode(split(serialize(F)))] for a frame built from [params]: the
    frame that comes back, when the frame went out as text and the
    splitter accepted it. *)
Definition roundtrip (params : FrameParams) : option Frame :=
  match marshall params with
  | Some (Text w) =>
      match split w with
      | Some raw =>
          Some (fst (fromRawFrame raw (or_default (p_escapeHeaderValues params) false)))
      | None => None
      end
  | _ => None
  end.

(** ** Vocabulary of the statements *)

(** What the constructor establishes and the methods keep: a binary
    frame holds its bytes, a text frame holds its text, and the bytes
    cached for a text frame are the encoding of that text. *)
Definition Frame_inv (this : Frame) : Prop :=
  if isBinaryBody this
  then exists b, _binaryBody this = Some b
  else exists s, _body this = Some s /\
         (_binaryBody this = None \/ _binaryBody this = Some (TextEncoder_encode s)).

(** The byte length of the body: the number of bytes of a binary
    body, the number of bytes of the UTF-8 encoding of a text body. *)
Definition byte_length (this : Frame) : nat :=
  if isBinaryBody this
  then length (or_default (_binaryBody this) [])
  else length (TextEncoder_encode (or_default (_body this) [])).

(** The frame once [serializeCmdAndHeaders] has dropped the
    [content-length] header of a frame that skips it. *)
Definition without_skipped (this : Frame) : Frame :=
  if skipContentLengthHeader this
  then set_headers (obj_delete content_length (headers this)) this
  else this.

(** The line [content-length:N]. *)
Definition content_length_line (n : nat) : jsstring :=
  content_length ++ [COLON] ++ Number_toString n.

(** The loop of [fromRawFrame] over the reversed lines, read in the
    order of the lines. *)
Definition decoded_headers (cmd : jsstring) (esc : bool)
  (lines : list (jsstring * jsstring)) : obj :=
  fold_right (fun header acc => fromRawFrame_step cmd esc acc header) [] lines.

(** The characters or bytes that go to the socket. *)
Definition wire_units (w : wire) : list Z :=
  match w with
  | Text s => s
  | Buffer b => b
  end.

(** No [a] in [s] is followed by [b]. *)
Fixpoint no_pair (a b : code_unit) (s : jsstring) : bool :=
  match s with
  | [] => true
  | c :: t =>
      match t with
      | [] => true
      | d :: _ => negb ((c =? a) && (d =? b)) && no_pair a b t
      end
  end.

(** No backslash of [s] is followed by one of the letters [r], [n]
    and [c], which would read as an escape sequence. *)
Definition no_escape_lookalike (s : jsstring) : bool :=
  no_pair BACKSLASH LETTER_r s && no_pair BACKSLASH LETTER_n s
  && no_pair BACKSLASH LETTER_c s.

(** The escaped form of one character, and what is left of it after
    each of the first three passes of [hdrValueUnEscape]. *)
Definition escape_unit (c : code_unit) : jsstring :=
  if c =? BACKSLASH then [BACKSLASH; BACKSLASH]
  else if c =? CR then [BACKSLASH; LETTER_r]
  else if c =? LF then [BACKSLASH; LETTER_n]
  else if c =? COLON then [BACKSLASH; LETTER_c]
  else [c].

Definition escape_unit_1 (c : code_unit) : jsstring :=
  if c =? BACKSLASH then [BACKSLASH; BACKSLASH]
  else if c =? LF then [BACKSLASH; LETTER_n]
  else if c =? COLON then [BACKSLASH; LETTER_c]
  else [c].

Definition escape_unit_2 (c : code_unit) : jsstring :=
  if c =? BACKSLASH then [BACKSLASH; BACKSLASH]
  else if c =? COLON then [BACKSLASH; LETTER_c]
  else [c].

Definition escape_unit_3 (c : code_unit) : jsstring :=
  if c =? BACKSLASH then [BACKSLASH; BACKSLASH] else [c].

(** [c] occurs in [s]. *)
Definition occurs (c : code_unit) (s : jsstring) : bool := existsb (Z.eqb c) s.

(** A header that crosses the wire unchanged: trimming changes
    neither its name nor its escaped value, the name has no colon and
    no line feed, and no backslash of the value reads as the start of
    an escape sequence. *)
Definition header_ok (header : jsstring * jsstring) : bool :=
  let (name, value) := header in
  str_eqb (trim name) name
  && negb (occurs COLON name) && negb (occurs LF name)
  && str_eqb (trim (hdrValueEscape value)) (hdrValueEscape value)
  && no_escape_lookalike value
  && negb (str_eqb name PROTO).

(** A header as the pair that the splitter makes of its line. *)
Definition escaped_pair (header : jsstring * jsstring) : jsstring * jsstring :=
  (fst header, hdrValueEscape (snd header)).

(** Each line followed by a line feed. *)
Definition unlines (lines : list jsstring) : jsstring :=
  flat_map (fun l => l ++ [LF]) lines.

(** A Unicode scalar value. *)
Definition is_scalar (c : Z) : bool :=
  ((0 <=? c) && (c <? 0xD800)) || ((0xE000 <=? c) && (c <? 0x110000)).

(** A string of 16-bit code units in which every surrogate is half of
    a pair. *)
Fixpoint well_formed_utf16 (s : jsstring) : bool :=
  match s with
  | [] => true
  | c :: t =>
      if is_high_surrogate c then
        match t with
        | [] => false
        | d :: u => is_low_surrogate d && well_formed_utf16 u
        end
      else negb (is_low_surrogate c) && (0 <=? c) && (c <? 0x10000)
           && well_formed_utf16 t
  end.

(** The code points and the state after some bytes of a longer input. *)
Fixpoint utf8_run (st : utf8_state) (bs : bytes) : list Z * utf8_state :=
  match bs with
  | [] => ([], st)
  | b :: t =>
      let (out, st') := utf8_run (snd (utf8_step st b)) t in
      (fst (utf8_step st b) ++ out, st')
  end.

(** ** Sample frames *)

Definition params_of (cmd : jsstring) (h : obj) (b : option jsstring)
  (bin : option bytes) (esc skip : bool) : FrameParams :=
  {| p_command := cmd; p_headers := Some h; p_body := b; p_binaryBody := bin;
     p_escapeHeaderValues := Some esc; p_skipContentLengthHeader := Some skip |}.

(** A frame built with an empty [Uint8Array]. *)
Definition empty_binary : FrameParams :=
  params_of (js "SEND") [] None (Some []) false false.

(** Two header lines with the same name. *)
Definition repeated_header : RawFrame :=
  {| raw_command := js "MESSAGE";
     raw_headers := [(js "a", js "1"); (js "a", js "2")];
     raw_binaryBody := Some [] |}.

(** A [CONNECT] frame that asks for escaping and has a colon in a value. *)
Definition connect_frame : Frame :=
  new_Frame (params_of CONNECT [(js "host", js "a:b")] None None true false).

(** A received frame with the command [CONNECT] and a value that
    looks escaped. *)
Definition connect_raw : RawFrame :=
  {| raw_command := CONNECT;
     raw_headers := [(js "host", js " a\cb")];
     raw_binaryBody := Some [] |}.

(** The text body of the spec's example, h-e-acute-l-l-o. *)
Definition hello : jsstring := [104; 233; 108; 108; 111].

Definition hello_frame : Frame :=
  new_Frame (params_of (js "SEND") [] (Some hello) None false false).

(** A text frame that skips the header, with a body and without one. *)
Definition skipping_frame : Frame :=
  new_Frame (params_of (js "SEND") [(content_length, js "77")] (Some (js "a")) None false true).

Definition empty_frame : Frame :=
  new_Frame (params_of (js "SEND") [] None None false false).

(** A binary frame, and a text frame whose body ends with a null character. *)
Definition binary_frame : Frame :=
  new_Frame (params_of (js "SEND") [(js "k", js "v")] None (Some [1; 2; 10]) false false).

(** A frame that skips the header and has no body. *)
Definition skipping_empty_frame : Frame :=
  new_Frame (params_of (js "SEND") [(content_length, js "77"); (js "k", js "v")]
               None None false true).

(** A backslash followed by the letter [r]. *)
Definition backslash_r : jsstring := [BACKSLASH; LETTER_r].

(** A text frame with a header value that starts with a space. *)
Definition padded_value : FrameParams :=
  params_of (js "SEND") [(js "b", js " z")] (Some (js "hi")) None true false.

(** A text frame with a colon and a backslash in its header values. *)
Definition sample_message : FrameParams :=
  params_of (js "SEND")
    [(js "destination", js "/queue/a:b"); (js "note", js "x\y")]
    (Some hello) None true false.

(** Text frames outside the scope of the round trip: a colon in a
    header name, a null character in a body that is not announced by
    its length, a lone surrogate in the body, a stale [content-length]
    set by the caller, and a backslash followed by [r] in a value. *)
Definition colon_in_name : FrameParams :=
  params_of (js "SEND") [(js "a:b", js "c")] None None true false.

Definition null_in_body : FrameParams :=
  params_of (js "SEND") [] (Some [65; 0; 66]) None true true.

Definition lone_surrogate : FrameParams :=
  params_of (js "SEND") [] (Some [0xD800]) None true false.

Definition stale_length : FrameParams :=
  params_of (js "SEND") [(content_length, js "1")] (Some (js "hi")) None true false.

Definition lookalike_value : FrameParams :=
  params_of (js "SEND") [(js "path", backslash_r)] None None true false.

(** ** Vocabulary and samples of the further properties *)

(** A character that [hdrValueEscape] leaves alone. *)
Definition plain_unit (c : code_unit) : bool :=
  negb ((c =? BACKSLASH) || (c =? CR) || (c =? LF) || (c =? COLON)).

(** A value with each of the four characters that are escaped. *)
Definition four_specials : jsstring :=
  [BACKSLASH; CR; 120; LF; COLON; BACKSLASH; BACKSLASH; 121].

(** The frame built for a text body, and the frame built for bytes. *)
Definition text_frame (cmd : jsstring) (h : obj) (text : option jsstring)
  (esc skip : bool) : Frame :=
  new_Frame (params_of cmd h text None esc skip).

Definition bytes_frame (cmd : jsstring) (h : obj) (b : option bytes)
  (esc skip : bool) : Frame :=
  new_Frame (params_of cmd h None b esc skip).

(** What a call of [serialize] leaves in [this]: the headers without
    the skipped [content-length], and the bytes of a text body cached. *)
Definition after_serialize (this : Frame) : Frame :=
  set_binaryBody
    (if isBinaryBody this then _binaryBody this
     else Some (TextEncoder_encode (or_default (_body this) [])))
    (without_skipped this).

(** Header lines with three different names, two of them padded. *)
Definition three_headers : RawFrame :=
  {| raw_command := js "MESSAGE";
     raw_headers := [(js " a", js "1"); (js "b ", js " 2 "); (js "c", js "3")];
     raw_binaryBody := Some [104; 105] |}.

(** A frame whose caller set a [content-length] of its own. *)
Definition stale_frame : Frame :=
  text_frame (js "SEND") [(content_length, js "77")] (Some (js "hi")) false false.

(** An escaping frame with a line feed in a header value. *)
Definition multiline_value : Frame :=
  text_frame (js "SEND") [(js "note", [120; LF; 121; COLON; 122])] None true false.

(** Parameters whose headers have an own property [__proto__], as an
    object read by [JSON.parse] can have. *)
Definition own_proto : FrameParams :=
  params_of (js "SEND") [(PROTO, js "x"); (js "destination", js "/queue/a")]
    None None false false.

(** The order of [Object.keys]: array indices in ascending order,
    then the other names. *)
Fixpoint names_ordered (ks : list jsstring) : Prop :=
  match ks with
  | [] => True
  | k :: t =>
      match array_index k with
      | Some n => Forall (fun k' => match array_index k' with
                                    | Some m => n < m
                                    | None => True
                                    end) t
      | None => Forall (fun k' => array_index k' = None) t
      end /\ names_ordered t
  end.

(** A raw frame without the header lines named [__proto__]. *)
Definition without_PROTO_lines (rawFrame : RawFrame) : RawFrame :=
  {| raw_command := raw_command rawFrame;
     raw_headers := filter (fun header => negb (str_eqb (trim (fst header)) PROTO))
                      (raw_headers rawFrame);
     raw_binaryBody := raw_binaryBody rawFrame |}.

(** * Properties *)

(** ** Strings and objects *)

Lemma str_eqb_eq (s t : jsstring) : str_eqb s t = true <-> s = t.
Proof.
  revert t; induction s as [|a s IH]; intros [|b t]; simpl; split;
    try congruence; try reflexivity.
  - intros H. apply andb_true_iff in H as [Hab Hst].
    apply Z.eqb_eq in Hab. apply IH in Hst. congruence.
  - intros H. injection H as -> ->. rewrite Z.eqb_refl. simpl. now apply IH.
Qed.

Lemma str_eqb_refl (s : jsstring) : str_eqb s s = true.
Proof. now apply str_eqb_eq. Qed.

Lemma str_eqb_neq (s t : jsstring) : s <> t -> str_eqb s t = false.
Proof.
  intros H. destruct (str_eqb s t) eqn:E; [|reflexivity].
  apply str_eqb_eq in E. contradiction.
Qed.

Lemma str_eqb_sym (s t : jsstring) : str_eqb s t = str_eqb t s.
Proof.
  destruct (str_eqb t s) eqn:E.
  - apply str_eqb_eq in E. subst. apply str_eqb_refl.
  - apply str_eqb_neq. intros ->. now rewrite str_eqb_refl in E.
Qed.

Ltac str_cases k k' :=
  let E := fresh "E" in
  destruct (str_eqb k k') eqn:E;
  [apply str_eqb_eq in E; try subst | ].

Lemma obj_get_app (k : jsstring) (o1 o2 : obj) :
  obj_get k (o1 ++ o2) =
  match obj_get k o1 with
  | Some v => Some v
  | None => obj_get k o2
  end.
Proof.
  induction o1 as [|[k' v'] o1 IH]; simpl; auto.
  destruct (str_eqb k' k); auto.
Qed.

Lemma obj_get_replace_same (k v w : jsstring) (o : obj) :
  obj_get k o = Some w -> obj_get k (obj_replace k v o) = Some v.
Proof.
  induction o as [|[k' v'] o IH]; simpl; [discriminate|].
  destruct (str_eqb k' k) eqn:E; simpl; rewrite E; auto.
Qed.

Lemma obj_get_replace_other (k k' v : jsstring) (o : obj) :
  k <> k' -> obj_get k' (obj_replace k v o) = obj_get k' o.
Proof.
  intros Hne. induction o as [|[k0 v0] o IH]; simpl; auto.
  destruct (str_eqb k0 k) eqn:E; simpl.
  - apply str_eqb_eq in E. subst k0. now rewrite (str_eqb_neq k k').
  - now rewrite IH.
Qed.

Lemma obj_replace_keys (k v : jsstring) (o : obj) :
  Object_keys (obj_replace k v o) = Object_keys o.
Proof.
  induction o as [|[k' v'] o IH]; simpl; auto.
  destruct (str_eqb k' k); simpl; auto. now rewrite IH.
Qed.

Lemma obj_get_insert_same (n : Z) (k v : jsstring) (o : obj) :
  obj_get k o = None -> obj_get k (obj_insert_index n k v o) = Some v.
Proof.
  induction o as [|[k' v'] o IH]; simpl.
  - now rewrite str_eqb_refl.
  - destruct (str_eqb k' k) eqn:E; [discriminate|]. intros G.
    destruct (array_index k') as [m|]; [destruct (m <? n)|]; simpl;
      rewrite ?str_eqb_refl, ?E; auto.
Qed.

Lemma obj_get_insert_other (n : Z) (k k' v : jsstring) (o : obj) :
  k <> k' -> obj_get k' (obj_insert_index n k v o) = obj_get k' o.
Proof.
  intros Hne. induction o as [|[k0 v0] o IH]; simpl.
  - now rewrite (str_eqb_neq k k').
  - destruct (array_index k0) as [m|]; [destruct (m <? n)|]; simpl;
      rewrite ?(str_eqb_neq k k') by assumption; rewrite ?IH; auto.
Qed.

Lemma obj_get_set_same (k v : jsstring) (o : obj) :
  k <> PROTO -> obj_get k (obj_set k v o) = Some v.
Proof.
  intros Hk. unfold obj_set. destruct (obj_get k o) as [w|] eqn:G.
  - now apply obj_get_replace_same with w.
  - rewrite (str_eqb_neq k PROTO) by assumption.
    destruct (array_index k) as [n|].
    + now apply obj_get_insert_same.
    + rewrite obj_get_app, G. simpl. now rewrite str_eqb_refl.
Qed.

Lemma obj_get_set_other (k k' v : jsstring) (o : obj) :
  k <> k' -> obj_get k' (obj_set k v o) = obj_get k' o.
Proof.
  intros Hne. unfold obj_set. destruct (obj_get k o) as [w|] eqn:G.
  - now apply obj_get_replace_other.
  - destruct (str_eqb k PROTO); [reflexivity|].
    destruct (array_index k) as [n|].
    + now apply obj_get_insert_other.
    + rewrite obj_get_app. simpl. rewrite (str_eqb_neq k k') by assumption.
      now destruct (obj_get k' o).
Qed.

(** Assigning to [__proto__] changes nothing, unless the object has an
    own property of that name. *)
Lemma obj_set_PROTO (v : jsstring) (o : obj) :
  obj_get PROTO o = None -> obj_set PROTO v o = o.
Proof. intros G. unfold obj_set. now rewrite G, str_eqb_refl. Qed.

Lemma obj_set_no_PROTO (k v : jsstring) (o : obj) :
  obj_get PROTO o = None -> obj_get PROTO (obj_set k v o) = None.
Proof.
  intros G. destruct (str_eqb k PROTO) eqn:E.
  - apply str_eqb_eq in E. subst k. now rewrite obj_set_PROTO.
  - rewrite obj_get_set_other; auto.
    intros ->. now rewrite str_eqb_refl in E.
Qed.

Lemma obj_get_delete_same (k : jsstring) (o : obj) :
  obj_get k (obj_delete k o) = None.
Proof.
  induction o as [|[k' v'] o IH]; simpl; auto.
  destruct (str_eqb k' k) eqn:E; simpl; auto. now rewrite E.
Qed.

Lemma obj_get_delete_other (k k' : jsstring) (o : obj) :
  k <> k' -> obj_get k' (obj_delete k o) = obj_get k' o.
Proof.
  intros Hne. induction o as [|[k0 v0] o IH]; simpl; auto.
  destruct (str_eqb k0 k) eqn:E; simpl.
  - apply str_eqb_eq in E. subst k0. now rewrite (str_eqb_neq k k').
  - now rewrite IH.
Qed.

Lemma obj_get_None_keys (k : jsstring) (o : obj) :
  obj_get k o = None <-> ~ In k (Object_keys o).
Proof.
  induction o as [|[k' v'] o IH]; simpl.
  - tauto.
  - destruct (str_eqb k' k) eqn:E.
    + apply str_eqb_eq in E. split; [discriminate | intros H; exfalso; auto].
    + rewrite IH. split; [|tauto].
      intros H [->|H']; [now rewrite str_eqb_refl in E | tauto].
Qed.

Lemma obj_delete_keys (k : jsstring) (o : obj) :
  ~ In k (Object_keys (obj_delete k o)).
Proof. apply obj_get_None_keys, obj_get_delete_same. Qed.

(** A new name that is neither an array index nor [__proto__] comes last. *)
Lemma obj_set_fresh (k v : jsstring) (o : obj) :
  obj_get k o = None -> k <> PROTO -> array_index k = None ->
  obj_set k v o = o ++ [(k, v)].
Proof.
  intros G Hk Hi. unfold obj_set.
  now rewrite G, (str_eqb_neq k PROTO), Hi.
Qed.

Lemma obj_get_In (k v : jsstring) (o : obj) :
  NoDup (Object_keys o) -> In (k, v) o -> obj_get k o = Some v.
Proof.
  induction o as [|[k' v'] o IH]; simpl; [tauto|].
  intros Hnd [H|H].
  - injection H as -> ->. now rewrite str_eqb_refl.
  - inversion Hnd as [|? ? Hnotin Hnd']; subst.
    destruct (str_eqb k' k) eqn:E.
    + apply str_eqb_eq in E. subst k'. exfalso. apply Hnotin.
      change (In (fst (k, v)) (map fst o)). now apply in_map.
    + auto.
Qed.

Lemma obj_get_Some_In (k v : jsstring) (o : obj) :
  obj_get k o = Some v -> In (k, v) o.
Proof.
  induction o as [|[k' v'] o IH]; simpl; [discriminate|].
  destruct (str_eqb k' k) eqn:E.
  - apply str_eqb_eq in E. intros H. injection H as ->. subst. now left.
  - auto.
Qed.

Lemma obj_insert_index_keys_NoDup (n : Z) (k v : jsstring) (o : obj) :
  obj_get k o = None ->
  NoDup (Object_keys o) -> NoDup (Object_keys (obj_insert_index n k v o)).
Proof.
  induction o as [|[k' v'] o IH]; simpl.
  - intros _ _. repeat constructor. simpl. tauto.
  - destruct (str_eqb k' k) eqn:E; [discriminate|]. intros G Hnd.
    assert (Hfresh : NoDup (k :: k' :: Object_keys o)).
    { constructor; [|assumption].
      change (~ In k (Object_keys ((k', v') :: o))).
      apply obj_get_None_keys. simpl. now rewrite E. }
    destruct (array_index k') as [m|]; [destruct (m <? n)|]; simpl; auto.
    inversion Hnd as [|? ? Hnotin Hnd']; subst.
    constructor; [|now apply IH].
    apply obj_get_None_keys. rewrite obj_get_insert_other.
    + now apply obj_get_None_keys.
    + intros ->. now rewrite str_eqb_refl in E.
Qed.

Lemma obj_set_keys_NoDup (k v : jsstring) (o : obj) :
  NoDup (Object_keys o) -> NoDup (Object_keys (obj_set k v o)).
Proof.
  intros Hnd. unfold obj_set. destruct (obj_get k o) eqn:G.
  - now rewrite obj_replace_keys.
  - destruct (str_eqb k PROTO); [assumption|].
    destruct (array_index k) as [n|].
    + now apply obj_insert_index_keys_NoDup.
    + unfold Object_keys. rewrite map_app. simpl.
      apply obj_get_None_keys in G.
      apply NoDup_app; [assumption | repeat constructor; simpl; tauto | ].
      intros x Hx [<-|[]]. auto.
Qed.

Lemma obj_delete_keys_NoDup (k : jsstring) (o : obj) :
  NoDup (Object_keys o) -> NoDup (Object_keys (obj_delete k o)).
Proof.
  induction o as [|[k' v'] o IH]; simpl; auto.
  intros Hnd. inversion Hnd as [|? ? Hnotin Hnd']; subst.
  destruct (str_eqb k' k); simpl; auto.
  constructor; auto.
  intros Hin. apply Hnotin. unfold Object_keys, obj_delete in *.
  apply in_map_iff in Hin as [e [He Hin]]. apply filter_In in Hin as [Hin _].
  subst. now apply in_map.
Qed.

(** Copying an object whose names are distinct and plain yields the
    same object. *)
Lemma Object_assign_app (target source : obj) :
  NoDup (Object_keys (target ++ source)) ->
  Forall plain_name (Object_keys source) ->
  Object_assign target source = target ++ source.
Proof.
  revert target. induction source as [|[k v] source IH]; intros target Hnd Hpl; simpl.
  - now rewrite app_nil_r.
  - unfold Object_assign in *. simpl.
    assert (Hk : obj_get k target = None).
    { apply obj_get_None_keys. unfold Object_keys in *. rewrite map_app in Hnd.
      simpl in Hnd. apply NoDup_remove_2 in Hnd. intros Hin. apply Hnd.
      apply in_or_app. now left. }
    inversion Hpl as [|? ? [Hp Hi] Hpl']; subst.
    rewrite obj_set_fresh by assumption.
    rewrite IH; [|rewrite <- app_assoc|]; auto.
    now rewrite <- app_assoc.
Qed.

Lemma Object_assign_NoDup (target source : obj) :
  NoDup (Object_keys target) -> NoDup (Object_keys (Object_assign target source)).
Proof.
  revert target. induction source as [|[k v] source IH]; intros target Hnd; simpl; auto.
  apply IH. now apply obj_set_keys_NoDup.
Qed.

Lemma Object_assign_copy (o : obj) :
  NoDup (Object_keys o) -> Forall plain_name (Object_keys o) ->
  Object_assign [] o = o.
Proof. intros H1 H2. now rewrite Object_assign_app. Qed.

Lemma Object_assign_no_PROTO (target source : obj) :
  obj_get PROTO target = None -> obj_get PROTO (Object_assign target source) = None.
Proof.
  revert target. induction source as [|[k v] source IH]; intros target G; simpl; auto.
  apply IH. now apply obj_set_no_PROTO.
Qed.

(** What [Object.assign] leaves under a name other than [__proto__]:
    the value of the source, or else what the target had. *)
Lemma Object_assign_get (target source : obj) (k : jsstring) :
  NoDup (Object_keys source) -> k <> PROTO ->
  obj_get k (Object_assign target source) =
  match obj_get k source with
  | Some v => Some v
  | None => obj_get k target
  end.
Proof.
  intros Hnd Hk. revert target.
  induction source as [|[k0 v0] source IH]; intros target; [reflexivity|].
  inversion Hnd as [|? ? Hnotin Hnd']; subst.
  change (Object_assign target ((k0, v0) :: source))
    with (Object_assign (obj_set k0 v0 target) source).
  rewrite IH by assumption. cbn [obj_get].
  destruct (str_eqb k0 k) eqn:E.
  - apply str_eqb_eq in E. subst k0.
    apply obj_get_None_keys in Hnotin. rewrite Hnotin.
    now apply obj_get_set_same.
  - destruct (obj_get k source); [reflexivity|].
    apply obj_get_set_other. intros ->. now rewrite str_eqb_refl in E.
Qed.

(** A copy into a new object has the own properties of the source,
    apart from [__proto__]. *)
Lemma Object_assign_new_get (o : obj) (k : jsstring) :
  NoDup (Object_keys o) ->
  obj_get k (Object_assign [] o) = if str_eqb k PROTO then None else obj_get k o.
Proof.
  intros Hnd. destruct (str_eqb k PROTO) eqn:E.
  - apply str_eqb_eq in E. subst k. now apply Object_assign_no_PROTO.
  - rewrite Object_assign_get; auto.
    + now destruct (obj_get k o).
    + intros ->. now rewrite str_eqb_refl in E.
Qed.

(** ** Array indices among the names *)

Lemma is_digit_range (c : code_unit) : is_digit c = true -> 0 <= c - 48 <= 9.
Proof. unfold is_digit. intros H. apply andb_true_iff in H as [H1 H2]. lia. Qed.

Lemma digits_from_same_length (s t : jsstring) (a b : Z) :
  forallb is_digit s = true -> forallb is_digit t = true ->
  length s = length t ->
  digits_from a s = digits_from b t -> a = b /\ s = t.
Proof.
  revert t a b. induction s as [|c s IH]; intros [|d t] a b Hs Ht Hlen; try discriminate.
  - auto.
  - cbn [forallb] in Hs, Ht. apply andb_true_iff in Hs as [Hc Hs].
    apply andb_true_iff in Ht as [Hd Ht]. injection Hlen as Hlen.
    unfold digits_from. cbn [fold_left]. intros H.
    apply IH in H as [Hab ->]; auto.
    apply is_digit_range in Hc, Hd.
    assert (a = b /\ c = d) as [-> ->] by lia. auto.
Qed.

Lemma digits_from_bounds (s : jsstring) (a : Z) :
  forallb is_digit s = true -> 0 <= a ->
  a * 10 ^ Z.of_nat (length s) <= digits_from a s < (a + 1) * 10 ^ Z.of_nat (length s).
Proof.
  revert a. induction s as [|c s IH]; intros a Hs Ha.
  - unfold digits_from. cbn. lia.
  - cbn [forallb] in Hs. apply andb_true_iff in Hs as [Hc Hs].
    apply is_digit_range in Hc.
    unfold digits_from. cbn [fold_left]. fold (digits_from (a * 10 + (c - 48)) s).
    specialize (IH (a * 10 + (c - 48)) Hs ltac:(lia)).
    cbn [length]. rewrite Nat2Z.inj_succ, Z.pow_succ_r by lia.
    assert (0 < 10 ^ Z.of_nat (length s)) by (apply Z.pow_pos_nonneg; lia).
    nia.
Qed.

Lemma array_index_spec (k : jsstring) (n : Z) :
  array_index k = Some n ->
  exists c t, k = c :: t /\ forallb is_digit k = true /\
              (c <> 48 \/ t = []) /\ n = digits_from 0 k.
Proof.
  unfold array_index. destruct k as [|c t]; [discriminate|].
  destruct (forallb is_digit (c :: t)) eqn:Hd; [|discriminate].
  destruct (negb (c =? 48) || match t with [] => true | _ => false end) eqn:Hz;
    [|discriminate].
  cbn [andb]. destruct (digits_value (c :: t) <? 2 ^ 32 - 1); [|discriminate].
  intros H. injection H as <-. exists c, t. repeat split; auto.
  apply orb_true_iff in Hz as [Hz|Hz].
  - left. apply negb_true_iff, Z.eqb_neq in Hz. exact Hz.
  - right. now destruct t.
Qed.

Lemma canonical_value_bounds (c : code_unit) (t : jsstring) :
  forallb is_digit (c :: t) = true -> c <> 48 \/ t = [] ->
  (t = [] -> 0 <= digits_from 0 (c :: t) < 10) /\
  (t <> [] -> 10 ^ Z.of_nat (length t) <= digits_from 0 (c :: t)
              < 10 ^ Z.of_nat (length (c :: t))).
Proof.
  intros Hd Hz. pose proof Hd as Hd'. cbn [forallb] in Hd'.
  apply andb_true_iff in Hd' as [Hc Ht]. apply is_digit_range in Hc.
  split.
  - intros ->. unfold digits_from. cbn. lia.
  - intros Hne. destruct Hz as [Hz|Hz]; [|contradiction].
    unfold digits_from. cbn [fold_left]. fold (digits_from (0 * 10 + (c - 48)) t).
    pose proof (digits_from_bounds t (0 * 10 + (c - 48)) Ht ltac:(lia)) as Hb.
    cbn [length]. rewrite Nat2Z.inj_succ, Z.pow_succ_r by lia.
    assert (0 < 10 ^ Z.of_nat (length t)) by (apply Z.pow_pos_nonneg; lia).
    nia.
Qed.

Lemma array_index_injective (k k' : jsstring) (n : Z) :
  array_index k = Some n -> array_index k' = Some n -> k = k'.
Proof.
  intros H H'.
  apply array_index_spec in H as (c & t & -> & Hd & Hz & Hn).
  apply array_index_spec in H' as (c' & t' & -> & Hd' & Hz' & Hn').
  destruct (Nat.eq_dec (length (c :: t)) (length (c' :: t'))) as [Hlen|Hlen].
  - apply (digits_from_same_length _ _ 0 0); auto. congruence.
  - exfalso.
    pose proof (canonical_value_bounds c t Hd Hz) as [B1 B2].
    pose proof (canonical_value_bounds c' t' Hd' Hz') as [B1' B2'].
    cbn [length] in *.
    assert (Hpow : forall a b : nat, (a < b)%nat ->
              10 ^ Z.of_nat (S a) <= 10 ^ Z.of_nat b).
    { intros a b Hab. apply Z.pow_le_mono_r; lia. }
    destruct t as [|x t], t' as [|x' t'].
    + now elim Hlen.
    + specialize (B1 eq_refl). specialize (B2' ltac:(discriminate)).
      cbn [length] in B2'. rewrite Nat2Z.inj_succ, Z.pow_succ_r in B2' by lia.
      assert (0 < 10 ^ Z.of_nat (length t')) by (apply Z.pow_pos_nonneg; lia).
      lia.
    + specialize (B1' eq_refl). specialize (B2 ltac:(discriminate)).
      cbn [length] in B2. rewrite Nat2Z.inj_succ, Z.pow_succ_r in B2 by lia.
      assert (0 < 10 ^ Z.of_nat (length t)) by (apply Z.pow_pos_nonneg; lia).
      lia.
    + specialize (B2 ltac:(discriminate)). specialize (B2' ltac:(discriminate)).
      destruct (Nat.lt_ge_cases (length (x :: t)) (length (x' :: t'))) as [L|L].
      * pose proof (Hpow _ _ L). lia.
      * assert (L' : (length (x' :: t') < length (x :: t))%nat)
          by (cbn [length] in *; lia).
        pose proof (Hpow _ _ L'). lia.
Qed.

Lemma names_ordered_snoc (ks : list jsstring) (k : jsstring) :
  array_index k = None -> names_ordered ks -> names_ordered (ks ++ [k]).
Proof.
  intros Hk. induction ks as [|k' ks IH]; cbn [names_ordered app].
  - destruct (array_index k); [discriminate|]. auto.
  - intros [Hhead Htail]. split; [|auto].
    destruct (array_index k').
    + apply Forall_app. split; [assumption|]. constructor; [|constructor].
      now rewrite Hk.
    + apply Forall_app. split; [assumption|]. now constructor.
Qed.

Lemma obj_insert_index_Forall (P : jsstring -> Prop) (n : Z) (k v : jsstring) (o : obj) :
  P k -> Forall P (Object_keys o) -> Forall P (Object_keys (obj_insert_index n k v o)).
Proof.
  intros Hk. induction o as [|[k' v'] o IH]; cbn [obj_insert_index Object_keys map fst].
  - intros _. now constructor.
  - intros Ho. inversion Ho as [|? ? Hk' Ho']; subst.
    destruct (array_index k') as [m|]; [destruct (m <? n)|];
      cbn [map fst]; repeat constructor; auto.
Qed.

Lemma obj_insert_index_ordered (n : Z) (k v : jsstring) (o : obj) :
  array_index k = Some n -> obj_get k o = None ->
  names_ordered (Object_keys o) ->
  names_ordered (Object_keys (obj_insert_index n k v o)).
Proof.
  intros Hk. induction o as [|[k' v'] o IH];
    cbn [obj_insert_index Object_keys map fst names_ordered obj_get].
  - rewrite Hk. auto.
  - destruct (str_eqb k' k) eqn:E; [discriminate|]. intros G [Hhead Htail].
    assert (Hne : k' <> k) by (intros ->; now rewrite str_eqb_refl in E).
    destruct (array_index k') as [m|] eqn:Hk'.
    + destruct (m <? n) eqn:Hmn; cbn [Object_keys map fst names_ordered].
      * rewrite Hk'. split; [|now apply IH].
        apply obj_insert_index_Forall; [|assumption]. rewrite Hk. lia.
      * rewrite Hk, Hk'. split; [|now split].
        constructor.
        -- rewrite Hk'. assert (m <> n).
           { intros ->. apply Hne. now apply array_index_injective with n. }
           lia.
        -- revert Hhead. apply Forall_impl. intros x.
           destruct (array_index x); [lia|auto].
    + cbn [Object_keys map fst names_ordered]. rewrite Hk, Hk'.
      split; [|now split]. constructor; [now rewrite Hk'|].
      revert Hhead. apply Forall_impl. now intros x ->.
Qed.

Lemma obj_set_ordered (k v : jsstring) (o : obj) :
  names_ordered (Object_keys o) -> names_ordered (Object_keys (obj_set k v o)).
Proof.
  intros Ho. unfold obj_set. destruct (obj_get k o) eqn:G.
  - now rewrite obj_replace_keys.
  - destruct (str_eqb k PROTO); [assumption|].
    destruct (array_index k) as [n|] eqn:Hk.
    + now apply obj_insert_index_ordered.
    + unfold Object_keys. rewrite map_app. now apply names_ordered_snoc.
Qed.

Lemma Object_assign_ordered (target source : obj) :
  names_ordered (Object_keys target) ->
  names_ordered (Object_keys (Object_assign target source)).
Proof.
  revert target. induction source as [|[k v] source IH]; intros target Ho; simpl; auto.
  apply IH. now apply obj_set_ordered.
Qed.

(** ** The methods of a frame *)

Lemma new_Frame_inv (params : FrameParams) : Frame_inv (new_Frame params).
Proof.
  unfold Frame_inv, new_Frame.
  destruct (p_binaryBody params) as [b|]; simpl; eauto.
Qed.

Lemma new_Frame_headers_NoDup (params : FrameParams) :
  NoDup (Object_keys (headers (new_Frame params))).
Proof.
  unfold new_Frame.
  destruct (truthy (p_binaryBody params)); simpl;
    apply Object_assign_NoDup; constructor.
Qed.

Ltac run_methods :=
  cbv [serializeLines serializeCmdAndHeaders serialize header_lines isBodyEmpty
       bodyLength binaryBody body bind ret this_ update without_skipped
       set_headers set_binaryBody set_body byte_length
       command headers _body _binaryBody isBinaryBody escapeHeaderValues
       skipContentLengthHeader truthy truthy_str or_default negb andb orb fst snd].

Ltac frame_cases this Hinv :=
  let cmd := fresh "cmd" in
  let h := fresh "h" in
  let b := fresh "b" in
  let bb := fresh "bb" in
  let bin := fresh "bin" in
  let esc := fresh "esc" in
  let skip := fresh "skip" in
  let s := fresh "s" in
  destruct this as [cmd h b bb bin esc skip];
  unfold Frame_inv in Hinv; cbn [isBinaryBody _binaryBody _body] in Hinv;
  destruct bin;
  [ destruct Hinv as [s ->] | destruct Hinv as [s [-> [-> | ->]]] ].

Lemma bodyLength_eq (this : Frame) :
  Frame_inv this -> fst (bodyLength this) = byte_length this.
Proof. intros Hinv. frame_cases this Hinv; reflexivity. Qed.

Lemma without_skipped_inv (this : Frame) :
  Frame_inv this -> Frame_inv (without_skipped this).
Proof.
  unfold without_skipped, Frame_inv. destruct (skipContentLengthHeader this); auto.
Qed.

(** The array [lines] in closed form. *)
Lemma serializeLines_eq (this : Frame) :
  Frame_inv this ->
  fst (serializeLines this) =
  [command this]
  ++ map (header_line (without_skipped this)) (Object_keys (headers (without_skipped this)))
  ++ (if isBinaryBody this
         || (negb (byte_length this =? 0)%nat && negb (skipContentLengthHeader this))
      then [content_length_line (byte_length this)]
      else []).
Proof.
  intros Hinv. frame_cases this Hinv; destruct skip; run_methods.
  all: try destruct (length (TextEncoder_encode s) =? 0)%nat.
  all: cbn [app]; try reflexivity.
  all: try (rewrite app_nil_r; reflexivity).
  all: rewrite <- app_assoc; reflexivity.
Qed.

(** What a call of [serializeCmdAndHeaders] leaves in [this]: the
    headers without the skipped [content-length], and nothing else
    that can be observed. *)
Lemma serializeLines_state (this : Frame) :
  Frame_inv this ->
  let this' := snd (serializeLines this) in
  Frame_inv this' /\ command this' = command this /\
  headers this' = headers (without_skipped this) /\
  _body this' = _body this /\ isBinaryBody this' = isBinaryBody this /\
  escapeHeaderValues this' = escapeHeaderValues this /\
  skipContentLengthHeader this' = skipContentLengthHeader this /\
  byte_length this' = byte_length this.
Proof.
  intros Hinv. frame_cases this Hinv; destruct skip; run_methods.
  all: try (unfold Frame_inv; cbn; eauto 12).
  all: destruct (length (TextEncoder_encode s) =? 0)%nat; unfold Frame_inv; cbn; eauto 12.
Qed.

(** ** Decoding *)

Lemma decoded_headers_NoDup cmd esc lines :
  NoDup (Object_keys (decoded_headers cmd esc lines)).
Proof.
  induction lines as [|h lines IH]; simpl.
  - constructor.
  - unfold fromRawFrame_step. now apply obj_set_keys_NoDup.
Qed.

Lemma fold_left_rev {A B} (f : B -> A -> B) (l : list A) (b : B) :
  fold_left f (rev l) b = fold_right (fun x acc => f acc x) b l.
Proof.
  induction l as [|a l IH]; simpl; auto.
  now rewrite fold_left_app, IH.
Qed.

Lemma decoded_headers_no_PROTO cmd esc lines :
  obj_get PROTO (decoded_headers cmd esc lines) = None.
Proof.
  induction lines as [|h lines IH]; simpl; [reflexivity|].
  unfold fromRawFrame_step. now apply obj_set_no_PROTO.
Qed.

(** The headers of the decoded frame: the constructor's copy of the
    object that the loop has filled. *)
Lemma fromRawFrame_headers (rawFrame : RawFrame) (esc : bool) :
  headers (fst (fromRawFrame rawFrame esc)) =
  Object_assign [] (decoded_headers (raw_command rawFrame) esc (raw_headers rawFrame)).
Proof.
  unfold fromRawFrame, new_Frame. cbn [fst reverse_headers raw_headers
    raw_command raw_binaryBody p_binaryBody p_headers or_default].
  rewrite fold_left_rev.
  fold (decoded_headers (raw_command rawFrame) esc (raw_headers rawFrame)).
  destruct (truthy (raw_binaryBody rawFrame)); reflexivity.
Qed.

Lemma fromRawFrame_get (rawFrame : RawFrame) (esc : bool) (k : jsstring) :
  obj_get k (headers (fst (fromRawFrame rawFrame esc))) =
  obj_get k (decoded_headers (raw_command rawFrame) esc (raw_headers rawFrame)).
Proof.
  rewrite fromRawFrame_headers, Object_assign_new_get by apply decoded_headers_NoDup.
  destruct (str_eqb k PROTO) eqn:E; [|reflexivity].
  apply str_eqb_eq in E. subst k. symmetry. apply decoded_headers_no_PROTO.
Qed.

(** A name other than [__proto__] is bound to the value of the first
    line that carries it. *)
Lemma decoded_headers_get cmd esc lines (k : jsstring) :
  k <> PROTO ->
  obj_get k (decoded_headers cmd esc lines) =
  option_map (header_value cmd esc)
    (find (fun header => str_eqb (trim (fst header)) k) lines).
Proof.
  intros Hk. induction lines as [|h lines IH]; [reflexivity|].
  cbn [decoded_headers fold_right find]. fold (decoded_headers cmd esc lines).
  unfold fromRawFrame_step.
  destruct (str_eqb (trim (fst h)) k) eqn:E.
  - apply str_eqb_eq in E. rewrite <- E in *. cbn [option_map].
    now apply obj_get_set_same.
  - rewrite obj_get_set_other; auto.
    intros Heq. rewrite Heq, str_eqb_refl in E. discriminate.
Qed.

(** Every stored value is the value of a line. *)
Lemma decoded_headers_value cmd esc lines (k v : jsstring) :
  obj_get k (decoded_headers cmd esc lines) = Some v ->
  exists header, In header lines /\ trim (fst header) = k /\
                 v = header_value cmd esc header.
Proof.
  intros G. destruct (str_eqb k PROTO) eqn:E.
  - apply str_eqb_eq in E. subst k. now rewrite decoded_headers_no_PROTO in G.
  - rewrite decoded_headers_get in G by (intros ->; now rewrite str_eqb_refl in E).
    destruct (find _ lines) as [header|] eqn:F; [|discriminate].
    injection G as <-. apply find_some in F as [Hin Heq].
    apply str_eqb_eq in Heq. eauto.
Qed.

(** ** Construction *)

Lemma new_Frame_text_body (params : FrameParams) :
  p_binaryBody params = None ->
  isBinaryBody (new_Frame params) = false /\
  _body (new_Frame params) = Some (or_default (p_body params) []) /\
  fst (body (new_Frame params)) = Some (or_default (p_body params) []).
Proof.
  unfold new_Frame. intros ->. cbn.
  destruct (p_body params) as [[|c s]|]; cbn; auto.
Qed.

(** C3, as stated, fails: a [binaryBody] that is supplied but empty
    makes a binary-bodied frame, because the constructor tests that the
    array is there, not that it has elements. *)
Lemma C3_empty_binaryBody_is_binary :
  ~ (isBinaryBody (new_Frame empty_binary) = true <->
     exists b, p_binaryBody empty_binary = Some b /\ b <> []).
Proof.
  intros [H _]. destruct (H eq_refl) as [b [Hb Hne]].
  injection Hb as <-. now apply Hne.
Qed.

(** C3, amended: the frame is binary-bodied exactly when [binaryBody]
    is supplied, empty or not, and it then holds these bytes; when
    [binaryBody] is absent the frame is text-bodied and its text is
    [body], or the empty text when [body] is absent. *)
Theorem C3_new_Frame_body_kind (params : FrameParams) :
  match p_binaryBody params with
  | Some b =>
      isBinaryBody (new_Frame params) = true /\
      _binaryBody (new_Frame params) = Some b /\
      _body (new_Frame params) = None
  | None =>
      isBinaryBody (new_Frame params) = false /\
      _body (new_Frame params) = Some (or_default (p_body params) []) /\
      fst (body (new_Frame params)) = Some (or_default (p_body params) [])
  end.
Proof.
  unfold new_Frame. destruct (p_binaryBody params) as [b|]; cbn; auto.
  destruct (p_body params) as [[|c s]|]; cbn; auto.
Qed.

(** ** Repeated headers and the reversed argument *)



(** C10: [fromRawFrame] leaves the header lines of its argument in
    reversed order; the command and the body of the argument are
    untouched. *)
Theorem C10_fromRawFrame_reverses_argument (rawFrame : RawFrame) (esc : bool) :
  raw_headers (snd (fromRawFrame rawFrame esc)) = rev (raw_headers rawFrame) /\
  raw_command (snd (fromRawFrame rawFrame esc)) = raw_command rawFrame /\
  raw_binaryBody (snd (fromRawFrame rawFrame esc)) = raw_binaryBody rawFrame /\
  raw_headers (snd (fromRawFrame (snd (fromRawFrame rawFrame esc)) esc))
  = raw_headers rawFrame.
Proof.
  repeat split. cbn [fromRawFrame snd reverse_headers raw_headers].
  apply rev_involutive.
Qed.

(** ** The CONNECT exemption *)

Lemma header_line_ext (this this' : Frame) (name : jsstring) :
  command this' = command this -> headers this' = headers this ->
  escapeHeaderValues this' = escapeHeaderValues this ->
  header_line this' name = header_line this name.
Proof. unfold header_line. now intros -> -> ->. Qed.

Lemma connect_not_escaped (cmd : jsstring) (esc : bool) :
  cmd = CONNECT \/ cmd = CONNECTED ->
  esc && negb (str_eqb cmd CONNECT) && negb (str_eqb cmd CONNECTED) = false.
Proof.
  intros [-> | ->]; rewrite str_eqb_refl; cbn [negb];
    now rewrite ?andb_false_r.
Qed.

Lemma without_skipped_command (this : Frame) :
  command (without_skipped this) = command this.
Proof. unfold without_skipped. now destruct (skipContentLengthHeader this). Qed.

(** C6: whatever the escaping flag says, a frame whose command is
    [CONNECT] or [CONNECTED] is serialized with one line per header,
    made of the name, a colon and the value as it is, both in the
    array of lines and in the text of [serializeCmdAndHeaders]; and the
    decoded headers of such a raw frame bind a name (other than
    [__proto__]) to the value of its first line, trimmed but not
    unescaped. *)
Theorem C6_connect_exempt (cmd : jsstring) :
  cmd = CONNECT \/ cmd = CONNECTED ->
  (forall this, Frame_inv this -> command this = cmd ->
     let h := headers (without_skipped this) in
     let lines :=
       [cmd]
       ++ map (fun name => name ++ [COLON] ++ to_str (obj_get name h)) (Object_keys h)
       ++ (if isBinaryBody this
              || (negb (byte_length this =? 0)%nat && negb (skipContentLengthHeader this))
           then [content_length_line (byte_length this)]
           else []) in
     fst (serializeLines this) = lines /\
     fst (serializeCmdAndHeaders this) = join LF lines ++ [LF; LF]) /\
  (forall rawFrame esc k header, raw_command rawFrame = cmd -> k <> PROTO ->
     find (fun h => str_eqb (trim (fst h)) k) (raw_headers rawFrame) = Some header ->
     obj_get k (headers (fst (fromRawFrame rawFrame esc))) = Some (trim (snd header))) /\
  (forall this name, command this = cmd ->
     header_line this name = name ++ [COLON] ++ to_str (obj_get name (headers this))) /\
  (forall esc header, header_value cmd esc header = trim (snd header)) /\
  (forall rawFrame esc, raw_command rawFrame = cmd ->
     headers (fst (fromRawFrame rawFrame esc)) = headers (fst (fromRawFrame rawFrame false))).
Proof.
  intros Hcmd.
  assert (Hline : forall this name, command this = cmd ->
            header_line this name
            = name ++ [COLON] ++ to_str (obj_get name (headers this))).
  { intros this name <-. unfold header_line. now rewrite connect_not_escaped. }
  assert (Hvalue : forall esc header, header_value cmd esc header = trim (snd header)).
  { intros esc header. unfold header_value. now rewrite connect_not_escaped. }
  assert (Hlines : forall this, Frame_inv this -> command this = cmd ->
            fst (serializeLines this)
            = [cmd]
              ++ map (fun name => name ++ [COLON]
                        ++ to_str (obj_get name (headers (without_skipped this))))
                   (Object_keys (headers (without_skipped this)))
              ++ (if isBinaryBody this
                     || (negb (byte_length this =? 0)%nat
                         && negb (skipContentLengthHeader this))
                  then [content_length_line (byte_length this)]
                  else [])).
  { intros this Hinv Hc. rewrite serializeLines_eq, Hc by assumption.
    do 2 f_equal. apply map_ext. intros name. apply Hline.
    now rewrite without_skipped_command. }
  split; [|split; [|split; [|split]]]; auto.
  - intros this Hinv Hc. cbv zeta. split; [now apply Hlines|].
    rewrite <- Hlines by assumption.
    unfold serializeCmdAndHeaders, bind, ret.
    now destruct (serializeLines this).
  - intros rawFrame esc k header Hc Hk Hfind.
    rewrite fromRawFrame_get, decoded_headers_get, Hfind, Hc by assumption.
    cbn [option_map]. now rewrite Hvalue.
  - intros rawFrame esc Hc. rewrite !fromRawFrame_headers, Hc.
    unfold decoded_headers, fromRawFrame_step, header_value.
    now rewrite connect_not_escaped.
Qed.

(** With escaping asked for, the header [host] with the value [a:b]
    goes out as the line [host:a:b], colon and all, and the received
    line [host: a\cb] is stored as [a\cb]. *)
Lemma C6_connect_exempt_witness :
  (CONNECT = CONNECT \/ CONNECT = CONNECTED) /\
  escapeHeaderValues connect_frame = true /\
  fst (serializeLines connect_frame) = [js "CONNECT"; js "host:a:b"] /\
  fst (serializeCmdAndHeaders connect_frame)
  = js "CONNECT" ++ [LF] ++ js "host:a:b" ++ [LF; LF] /\
  obj_get (js "host") (headers (fst (fromRawFrame connect_raw true)))
  = Some (js "a\cb").
Proof.
  split; [now left|]. split; [reflexivity|].
  pose proof (C6_connect_exempt CONNECT (or_introl eq_refl)) as [Hout [Hin _]].
  destruct (Hout connect_frame (new_Frame_inv _) eq_refl) as [Hlines Htext].
  split; [exact Hlines|]. split; [exact Htext|].
  exact (Hin connect_raw true (js "host") (js "host", js " a\cb") eq_refl
           ltac:(discriminate) eq_refl).
Defined.

(** ** The content-length line *)

(** C2, as stated, fails twice: a text body that is not empty gets no
    [content-length] line when the frame skips the header, and an empty
    text body gets none when it does not. *)
Lemma C2_text_frames_without_content_length :
  ~ (negb ((byte_length skipping_frame =? 0)%nat
           && skipContentLengthHeader skipping_frame) = true ->
     In (content_length_line (byte_length skipping_frame))
        (fst (serializeLines skipping_frame))) /\
  ~ (negb ((byte_length empty_frame =? 0)%nat
           && skipContentLengthHeader empty_frame) = true ->
     In (content_length_line (byte_length empty_frame))
        (fst (serializeLines empty_frame))).
Proof.
  split; intros H; specialize (H eq_refl); vm_compute in H;
    repeat (destruct H as [H|H]; [discriminate H|]); exact H.
Qed.

(** C2, amended: the lines of a frame are its command, one line for
    each header, and then [content-length:N], with [N] the byte length
    of the body, exactly when the frame is binary-bodied, or its body
    is not empty and it does not skip the header. *)
Theorem C2_content_length_appended (this : Frame) :
  Frame_inv this ->
  fst (serializeLines this) =
  [command this]
  ++ map (header_line (without_skipped this)) (Object_keys (headers (without_skipped this)))
  ++ (if isBinaryBody this
         || (negb (byte_length this =? 0)%nat && negb (skipContentLengthHeader this))
      then [content_length_line (byte_length this)]
      else []).
Proof. apply serializeLines_eq. Qed.

Lemma C2_content_length_appended_witness :
  Frame_inv skipping_frame /\ fst (serializeLines skipping_frame) = [js "SEND"].
Proof.
  split; [apply new_Frame_inv|].
  exact (C2_content_length_appended skipping_frame (new_Frame_inv _)).
Defined.

(** C7: [bodyLength] is the byte length of the body, which for a text
    body is the length of its UTF-8 encoding, and the [content-length]
    line that serialization appends carries this number. *)
Theorem C7_content_length_is_byte_length (this : Frame) :
  Frame_inv this ->
  fst (bodyLength this) = byte_length this /\
  (forall s, isBinaryBody this = false -> _body this = Some s ->
     fst (bodyLength this) = length (TextEncoder_encode s)) /\
  (isBinaryBody this
   || (negb (byte_length this =? 0)%nat && negb (skipContentLengthHeader this)) = true ->
   last (fst (serializeLines this)) [] =
   content_length ++ [COLON] ++ Number_toString (byte_length this)).
Proof.
  intros Hinv. split; [now apply bodyLength_eq|]. split.
  - intros s Hbin Hbody. rewrite bodyLength_eq by assumption.
    unfold byte_length. now rewrite Hbin, Hbody.
  - intros Hemit. rewrite serializeLines_eq, Hemit by assumption.
    rewrite !app_assoc. apply last_last.
Qed.

(** The five characters of [hello] are six bytes. *)
Lemma C7_content_length_is_byte_length_witness :
  Frame_inv hello_frame /\
  length hello = 5%nat /\
  fst (bodyLength hello_frame) = 6%nat /\
  last (fst (serializeLines hello_frame)) [] = js "content-length:6".
Proof.
  split; [apply new_Frame_inv|]. split; [reflexivity|].
  destruct (C7_content_length_is_byte_length hello_frame (new_Frame_inv _))
    as (Hlen & _ & Hline).
  split; [exact Hlen | exact (Hline eq_refl)].
Defined.

(** ** Byte arrays and the encoder *)

Lemma Uint8Array_set_middle (pre old post src : bytes) :
  length old = length src ->
  Uint8Array_set (pre ++ old ++ post) src (length pre) = Some (pre ++ src ++ post).
Proof.
  intros Hlen. unfold Uint8Array_set.
  replace (length pre + length src <=? length (pre ++ old ++ post))%nat with true
    by (symmetry; apply Nat.leb_le; rewrite !length_app; lia).
  f_equal. f_equal.
  - rewrite firstn_app, firstn_all, Nat.sub_diag. cbn [firstn]. apply app_nil_r.
  - f_equal. rewrite <- Hlen, app_assoc, <- length_app.
    rewrite skipn_app, skipn_all, Nat.sub_diag. reflexivity.
Qed.

Lemma toUnit8Array_eq (cmdAndHeaders : jsstring) (binaryBody : bytes) :
  toUnit8Array cmdAndHeaders binaryBody =
  Some (TextEncoder_encode cmdAndHeaders ++ binaryBody ++ [0]).
Proof.
  unfold toUnit8Array, Uint8Array_new.
  set (u := TextEncoder_encode cmdAndHeaders).
  pose proof (Uint8Array_set_middle [] (repeat 0 (length u))
                (repeat 0 (length binaryBody) ++ [0]) u (repeat_length _ _)) as H1.
  pose proof (Uint8Array_set_middle u (repeat 0 (length binaryBody)) [0] binaryBody
                (repeat_length _ _)) as H2.
  pose proof (Uint8Array_set_middle (u ++ binaryBody) [0] [] [0] eq_refl) as H3.
  cbn [app length] in H1, H2, H3.
  rewrite !repeat_app, <- app_assoc. cbn [length repeat].
  rewrite H1, H2.
  rewrite length_app, <- !app_assoc in H3. cbn [app] in H3.
  exact H3.
Qed.

(** The scalar values of a text are read piece by piece, unless the
    cut falls inside a surrogate pair. *)
Lemma USVString_app (s t : jsstring) :
  match t with
  | [] => True
  | d :: _ => is_low_surrogate d = false
  end ->
  USVString (s ++ t) = USVString s ++ USVString t.
Proof.
  intros Ht.
  assert (H : forall n s, (length s <= n)%nat ->
            USVString (s ++ t) = USVString s ++ USVString t).
  { clear s. induction n as [|n IH]; intros s Hn.
    - destruct s; [reflexivity | simpl in Hn; lia].
    - destruct s as [|c s]; [reflexivity|].
      cbn [app USVString]. simpl in Hn.
      destruct (is_high_surrogate c).
      + destruct s as [|d u].
        * cbn [app]. destruct t as [|d t']; [reflexivity | now rewrite Ht].
        * cbn [app]. simpl in Hn. destruct (is_low_surrogate d).
          -- now rewrite IH by lia.
          -- change (d :: u ++ t) with ((d :: u) ++ t).
             now rewrite IH by (simpl; lia).
      + destruct (is_low_surrogate c); now rewrite IH by lia. }
  now apply (H (length s)).
Qed.

Lemma ascii_not_surrogate (c : code_unit) :
  0 <= c < 0x80 -> is_high_surrogate c = false /\ is_low_surrogate c = false.
Proof.
  intros Hc. unfold is_high_surrogate, is_low_surrogate.
  replace (0xD800 <=? c) with false by (symmetry; apply Z.leb_gt; lia).
  replace (0xDC00 <=? c) with false by (symmetry; apply Z.leb_gt; lia).
  auto.
Qed.

(** A text that goes on with an ASCII character. *)
Lemma TextEncoder_encode_snoc (s : jsstring) (c : code_unit) (t : jsstring) :
  0 <= c < 0x80 ->
  TextEncoder_encode (s ++ c :: t) = TextEncoder_encode s ++ c :: TextEncoder_encode t.
Proof.
  intros Hc. destruct (ascii_not_surrogate c Hc) as [Hhi Hlo].
  unfold TextEncoder_encode. rewrite USVString_app by assumption.
  rewrite flat_map_app. f_equal.
  cbn [USVString]. rewrite Hhi, Hlo. cbn [flat_map].
  unfold utf8_bytes at 1.
  replace (c <? 0x80) with true by (symmetry; apply Z.ltb_lt; lia).
  reflexivity.
Qed.

(** ** The layout of a serialized frame *)

Lemma serialize_eq (this : Frame) :
  Frame_inv this ->
  fst (serialize this) =
  let block := join LF (fst (serializeLines this)) in
  Some (if isBinaryBody this
        then Buffer (TextEncoder_encode block ++ [10; 10]
                     ++ or_default (_binaryBody this) [] ++ [0])
        else Text (block ++ [LF; LF] ++ or_default (_body this) [] ++ [NULL])).
Proof.
  intros Hinv. frame_cases this Hinv; destruct skip; run_methods.
  all: try destruct (length (TextEncoder_encode s) =? 0)%nat.
  all: cbn [option_map to_str app]; rewrite ?toUnit8Array_eq; cbn [option_map].
  all: rewrite <- ?app_assoc; cbn [app].
  all: try reflexivity.
  all: do 2 f_equal.
  all: rewrite TextEncoder_encode_snoc by (unfold LF; lia).
  all: change [LF] with ([] ++ [LF]); rewrite TextEncoder_encode_snoc by (unfold LF; lia).
  all: rewrite <- ?app_assoc; reflexivity.
Qed.

Lemma serializeCmdAndHeaders_eq (this : Frame) :
  fst (serializeCmdAndHeaders this) = join LF (fst (serializeLines this)) ++ [LF; LF].
Proof.
  unfold serializeCmdAndHeaders, bind, ret.
  destruct (serializeLines this) as [lines this']. reflexivity.
Qed.

(** C8: a serialized frame is the header block, two line feeds, the
    body and one null; the null is the last thing in it.  A text frame
    is laid out in characters and a binary frame in bytes. *)
Theorem C8_frame_layout (this : Frame) :
  Frame_inv this ->
  let block := join LF (fst (serializeLines this)) in
  fst (serializeCmdAndHeaders this) = block ++ [LF; LF] /\
  fst (serialize this) =
  Some (if isBinaryBody this
        then Buffer (TextEncoder_encode block ++ [10; 10]
                     ++ or_default (_binaryBody this) [] ++ [0])
        else Text (block ++ [LF; LF] ++ or_default (_body this) [] ++ [NULL])) /\
  exists w, fst (serialize this) = Some w /\ last (wire_units w) LF = NULL.
Proof.
  intros Hinv block. split; [apply serializeCmdAndHeaders_eq|].
  split; [now apply serialize_eq|].
  rewrite serialize_eq by assumption. cbv zeta. fold block.
  eexists. split; [reflexivity|].
  destruct (isBinaryBody this); cbn [wire_units]; rewrite !app_assoc; apply last_last.
Qed.

Lemma C8_frame_layout_witness :
  Frame_inv binary_frame /\
  fst (serialize binary_frame) =
  Some (Buffer (TextEncoder_encode (js "SEND") ++ [10] ++ TextEncoder_encode (js "k:v")
                ++ [10] ++ TextEncoder_encode (js "content-length:3")
                ++ [10; 10] ++ [1; 2; 10] ++ [0])).
Proof.
  split; [apply new_Frame_inv|].
  generalize (proj1 (proj2 (C8_frame_layout binary_frame (new_Frame_inv _)))).
  vm_compute. exact (fun H => H).
Defined.

(** ** Skipping the content-length header *)

(** C9: when a frame skips the header, serialization deletes the
    [content-length] entry from its headers, no header line is pushed
    for that name, and the only [content-length] line there can be is
    the one computed for a binary body; a text-bodied frame, so also
    one with an empty body, has no such line at all. *)
Theorem C9_skipped_content_length (this : Frame) :
  Frame_inv this ->
  skipContentLengthHeader this = true ->
  let lines := fst (serializeLines this) in
  let this' := snd (serializeLines this) in
  headers this' = obj_delete content_length (headers this) /\
  obj_get content_length (headers this') = None /\
  ~ In content_length (Object_keys (headers this')) /\
  lines = [command this]
          ++ map (header_line this') (Object_keys (headers this'))
          ++ (if isBinaryBody this then [content_length_line (byte_length this)] else []) /\
  (isBinaryBody this = false ->
   lines = command this :: map (header_line this') (Object_keys (headers this'))).
Proof.
  intros Hinv Hskip lines this'.
  destruct (serializeLines_state this Hinv)
    as (_ & Hcmd & Hh & _ & _ & Hesc & _ & _).
  fold this' in Hcmd, Hh, Hesc.
  assert (Hw : headers this' = obj_delete content_length (headers this)).
  { rewrite Hh. unfold without_skipped. now rewrite Hskip. }
  assert (Hlines : lines = [command this]
            ++ map (header_line this') (Object_keys (headers this'))
            ++ (if isBinaryBody this then [content_length_line (byte_length this)] else [])).
  { unfold lines. rewrite serializeLines_eq by assumption.
    rewrite Hskip, andb_false_r, orb_false_r, <- Hh.
    f_equal. f_equal. apply map_ext. intros name. symmetry.
    apply header_line_ext; auto.
    - rewrite Hcmd. unfold without_skipped. now destruct (skipContentLengthHeader this).
    - rewrite Hesc. unfold without_skipped. now destruct (skipContentLengthHeader this). }
  repeat split.
  - exact Hw.
  - rewrite Hw. apply obj_get_delete_same.
  - rewrite Hw. apply obj_delete_keys.
  - exact Hlines.
  - intros Hbin. rewrite Hlines, Hbin, app_nil_r. reflexivity.
Qed.

(** The caller's [content-length:77] is not sent. *)
Lemma C9_skipped_content_length_witness :
  Frame_inv skipping_empty_frame /\
  skipContentLengthHeader skipping_empty_frame = true /\
  obj_get content_length (headers skipping_empty_frame) = Some (js "77") /\
  fst (serializeLines skipping_empty_frame) = [js "SEND"; js "k:v"].
Proof.
  split; [apply new_Frame_inv|]. split; [reflexivity|]. split; [reflexivity|].
  exact (proj2 (proj2 (proj2 (proj2
    (C9_skipped_content_length skipping_empty_frame (new_Frame_inv _) eq_refl))))
    eq_refl).
Defined.

(** ** Escaping and unescaping *)

Lemma replace_char_flat_map (x : code_unit) (rep s : jsstring) :
  replace_char x rep s = flat_map (fun a => if a =? x then rep else [a]) s.
Proof.
  induction s as [|a s IH]; simpl; auto.
  destruct (a =? x); simpl; now rewrite IH.
Qed.

Lemma flat_map_flat_map {A B C} (f : A -> list B) (g : B -> list C) (l : list A) :
  flat_map g (flat_map f l) = flat_map (fun a => flat_map g (f a)) l.
Proof.
  induction l as [|a l IH]; simpl; auto.
  now rewrite flat_map_app, IH.
Qed.

(** The four replacements of [hdrValueEscape] amount to one pass. *)
Lemma hdrValueEscape_flat_map (s : jsstring) :
  hdrValueEscape s = flat_map escape_unit s.
Proof.
  unfold hdrValueEscape. rewrite !replace_char_flat_map, !flat_map_flat_map.
  apply flat_map_ext. intros c. unfold escape_unit.
  destruct (Z.eqb_spec c BACKSLASH) as [->|E1]; [reflexivity|].
  destruct (Z.eqb_spec c CR) as [->|E2]; [reflexivity|].
  destruct (Z.eqb_spec c LF) as [->|E3]; [reflexivity|].
  destruct (Z.eqb_spec c COLON) as [->|E4]; [reflexivity|].
  pose proof (proj2 (Z.eqb_neq c CR) E2) as H2.
  pose proof (proj2 (Z.eqb_neq c LF) E3) as H3.
  pose proof (proj2 (Z.eqb_neq c COLON) E4) as H4.
  cbn [flat_map app]. rewrite H2.
  cbn [flat_map app]. rewrite H3.
  cbn [flat_map app]. rewrite H4.
  reflexivity.
Qed.

Lemma replace_pair_skip (x y : code_unit) (rep : jsstring) (a : code_unit) (t : jsstring) :
  a <> x -> replace_pair x y rep (a :: t) = a :: replace_pair x y rep t.
Proof.
  intros Ha. cbn [replace_pair]. destruct t as [|b u]; [reflexivity|].
  now rewrite (proj2 (Z.eqb_neq a x)).
Qed.

Lemma replace_pair_skip_next (x y : code_unit) (rep : jsstring) (a : code_unit) (t : jsstring) :
  hd_error t <> Some y -> replace_pair x y rep (a :: t) = a :: replace_pair x y rep t.
Proof.
  intros Ht. cbn [replace_pair]. destruct t as [|b u]; [reflexivity|].
  destruct (Z.eqb_spec b y) as [->|Hb]; [now elim Ht|].
  now rewrite andb_false_r.
Qed.

Lemma replace_pair_hit (x y : code_unit) (rep t : jsstring) :
  replace_pair x y rep (x :: y :: t) = rep ++ replace_pair x y rep t.
Proof. cbn [replace_pair]. now rewrite !Z.eqb_refl. Qed.

Lemma no_pair_cons (a b c : code_unit) (t : jsstring) :
  no_pair a b (c :: t) = true ->
  no_pair a b t = true /\ (c = a -> hd_error t <> Some b).
Proof.
  cbn [no_pair]. destruct t as [|d u].
  - intros _. split; [reflexivity | discriminate].
  - intros H. apply andb_true_iff in H as [H1 H2]. split; [assumption|].
    intros -> Hd. cbn in Hd. injection Hd as ->.
    now rewrite !Z.eqb_refl in H1.
Qed.

(** One of the first three passes of [hdrValueUnEscape], which turns
    the sequence of a backslash and the letter [x] into [y], on a text
    made of escaped characters. *)
Section UnescapePass.
Variables (x y : code_unit) (e e' : code_unit -> jsstring).
Hypothesis x_letter : x <> BACKSLASH.
Hypothesis units : forall c,
  (c <> BACKSLASH /\ e c = [BACKSLASH; x] /\ e' c = [y]) \/
  (c = BACKSLASH /\ e c = [BACKSLASH; BACKSLASH] /\ e' c = e c) \/
  (c <> BACKSLASH /\
   (exists z, z <> x /\ z <> BACKSLASH /\ e c = [BACKSLASH; z]) /\ e' c = e c) \/
  (c <> BACKSLASH /\ e c = [c] /\ e' c = e c).

Lemma escaped_head (s : jsstring) :
  hd_error s <> Some x -> hd_error (flat_map e s) <> Some x.
Proof.
  destruct s as [|c t]; cbn [flat_map hd_error]; [auto|].
  intros Hc.
  destruct (units c) as [(_ & -> & _) | [(_ & -> & _) | [(_ & (z & _ & _ & ->) & _)
                        | (_ & -> & _)]]];
    cbn; congruence.
Qed.

Lemma unescape_pass (s : jsstring) :
  no_pair BACKSLASH x s = true ->
  replace_pair BACKSLASH x [y] (flat_map e s) = flat_map e' s.
Proof.
  induction s as [|c t IH]; [reflexivity|].
  intros Hok. apply no_pair_cons in Hok as [Hok Hnext].
  specialize (IH Hok). cbn [flat_map].
  destruct (units c) as [(_ & -> & ->) | [(Hc & He & ->) | [(_ & (z & Hzx & Hz & He) & ->)
                        | (Hc & He & ->)]]].
  - cbn [app]. now rewrite replace_pair_hit, IH.
  - rewrite He. cbn [app].
    rewrite replace_pair_skip_next by (cbn; congruence).
    rewrite replace_pair_skip_next by (apply escaped_head; auto).
    now rewrite IH.
  - rewrite He. cbn [app].
    rewrite replace_pair_skip_next by (cbn; congruence).
    rewrite replace_pair_skip by assumption.
    now rewrite IH.
  - rewrite He. cbn [app].
    rewrite replace_pair_skip by assumption.
    now rewrite IH.
Qed.
End UnescapePass.

(** The last pass, which turns two backslashes into one. *)
Lemma unescape_backslashes (s : jsstring) :
  replace_pair BACKSLASH BACKSLASH [BACKSLASH] (flat_map escape_unit_3 s) = s.
Proof.
  induction s as [|c t IH]; [reflexivity|].
  cbn [flat_map]. unfold escape_unit_3 at 1.
  destruct (Z.eqb_spec c BACKSLASH) as [->|Hc]; cbn [app].
  - now rewrite replace_pair_hit, IH.
  - now rewrite replace_pair_skip, IH.
Qed.

Ltac unit_neq :=
  unfold BACKSLASH, CR, LF, COLON, LETTER_r, LETTER_n, LETTER_c in *; lia.

Ltac unit_facts c :=
  unfold escape_unit, escape_unit_1, escape_unit_2, escape_unit_3;
  destruct (Z.eqb_spec c BACKSLASH) as [?|?];
  destruct (Z.eqb_spec c CR) as [?|?];
  destruct (Z.eqb_spec c LF) as [?|?];
  destruct (Z.eqb_spec c COLON) as [?|?];
  try (exfalso; unit_neq).

Ltac unit_same := right; right; right; repeat split; auto.
Ltac unit_hit := left; subst; repeat split; auto; unit_neq.
Ltac unit_backslash := right; left; repeat split; auto.
Ltac unit_other z :=
  right; right; left; repeat split; auto;
  exists z; repeat split; auto; unit_neq.

Lemma unescape_pass_r (s : jsstring) :
  no_pair BACKSLASH LETTER_r s = true ->
  replace_pair BACKSLASH LETTER_r [CR] (flat_map escape_unit s)
  = flat_map escape_unit_1 s.
Proof.
  apply unescape_pass; [discriminate|].
  intros c. unit_facts c.
  - unit_backslash.
  - unit_hit.
  - unit_other LETTER_n.
  - unit_other LETTER_c.
  - unit_same.
Qed.

Lemma unescape_pass_n (s : jsstring) :
  no_pair BACKSLASH LETTER_n s = true ->
  replace_pair BACKSLASH LETTER_n [LF] (flat_map escape_unit_1 s)
  = flat_map escape_unit_2 s.
Proof.
  apply unescape_pass; [discriminate|].
  intros c. unit_facts c.
  - unit_backslash.
  - unit_same.
  - unit_hit.
  - unit_other LETTER_c.
  - unit_same.
Qed.

Lemma unescape_pass_c (s : jsstring) :
  no_pair BACKSLASH LETTER_c s = true ->
  replace_pair BACKSLASH LETTER_c [COLON] (flat_map escape_unit_2 s)
  = flat_map escape_unit_3 s.
Proof.
  apply unescape_pass; [discriminate|].
  intros c. unit_facts c.
  - unit_backslash.
  - unit_same.
  - unit_same.
  - unit_hit.
  - unit_same.
Qed.

(** Unescaping undoes escaping on a text none of whose backslashes is
    followed by [r], [n] or [c]. *)
Lemma hdrValueUnEscape_hdrValueEscape (s : jsstring) :
  no_escape_lookalike s = true ->
  hdrValueUnEscape (hdrValueEscape s) = s.
Proof.
  unfold no_escape_lookalike. intros H.
  apply andb_true_iff in H as [H Hc]. apply andb_true_iff in H as [Hr Hn].
  unfold hdrValueUnEscape. rewrite hdrValueEscape_flat_map.
  rewrite unescape_pass_r, unescape_pass_n, unescape_pass_c by assumption.
  apply unescape_backslashes.
Qed.

(** C1 fails on the code: the value made of a backslash and the letter
    [r] is escaped to two backslashes and [r], and unescaping reads the
    second backslash and the [r] as an escaped carriage return before
    it looks for a doubled backslash; what comes back is a backslash
    and a carriage return. *)
Theorem C1_unescape_misreads_escaped_backslash :
  hdrValueEscape backslash_r = [BACKSLASH; BACKSLASH; LETTER_r] /\
  hdrValueUnEscape (hdrValueEscape backslash_r) = [BACKSLASH; CR] /\
  hdrValueUnEscape (hdrValueEscape backslash_r) <> backslash_r.
Proof. repeat split. discriminate. Qed.

(** ** The splitter on a serialized frame *)

Lemma occurs_false (c : code_unit) (s : jsstring) :
  occurs c s = false -> ~ In c s.
Proof.
  unfold occurs. intros H Hin.
  assert (existsb (Z.eqb c) s = true) as Ht
    by (apply existsb_exists; exists c; split; [assumption | apply Z.eqb_refl]).
  congruence.
Qed.

Lemma break_at_first (c : Z) (l r : list Z) :
  ~ In c l -> break_at c (l ++ c :: r) = Some (l, r).
Proof.
  induction l as [|a l IH]; intros Hnot; cbn [app break_at].
  - now rewrite Z.eqb_refl.
  - rewrite (proj2 (Z.eqb_neq a c)) by (intros ->; apply Hnot; now left).
    rewrite IH; [reflexivity|]. intros Hin. apply Hnot. now right.
Qed.

Lemma join_unlines (l : jsstring) (lines : list jsstring) :
  join LF (l :: lines) ++ [LF] = unlines (l :: lines).
Proof.
  revert l. induction lines as [|l' lines IH]; intros l.
  - cbn. now rewrite app_nil_r.
  - change (join LF (l :: l' :: lines)) with (l ++ LF :: join LF (l' :: lines)).
    change (unlines (l :: l' :: lines)) with ((l ++ [LF]) ++ unlines (l' :: lines)).
    rewrite <- IH, <- !app_assoc. reflexivity.
Qed.

(** Reading one line. *)
Lemma split_lines_line (cur l r : jsstring) :
  ~ In LF l -> rev cur ++ l <> [] ->
  split_lines cur (l ++ LF :: r) =
  match split_lines [] r with
  | Some (ls, rest) => Some ((rev cur ++ l) :: ls, rest)
  | None => None
  end.
Proof.
  revert cur. induction l as [|a l IH]; intros cur Hnot Hne; cbn [app split_lines].
  - rewrite Z.eqb_refl. rewrite app_nil_r in *.
    destruct cur as [|c cur]; [now elim Hne|]. reflexivity.
  - rewrite (proj2 (Z.eqb_neq a LF)) by (intros ->; apply Hnot; now left).
    rewrite IH.
    + cbn [rev]. rewrite <- app_assoc. reflexivity.
    + intros Hin. apply Hnot. now right.
    + cbn [rev]. rewrite <- app_assoc. cbn. now destruct (rev cur).
Qed.

(** Reading the header block. *)
Lemma split_lines_unlines (lines : list jsstring) (r : jsstring) :
  Forall (fun l => l <> [] /\ ~ In LF l) lines ->
  split_lines [] (unlines lines ++ LF :: r) = Some (lines, r).
Proof.
  induction 1 as [|l lines [Hne Hnot] _ IH].
  - cbn. reflexivity.
  - change (unlines (l :: lines)) with ((l ++ [LF]) ++ unlines lines).
    rewrite <- !app_assoc. cbn [app].
    rewrite split_lines_line by (cbn; auto). now rewrite IH.
Qed.

Lemma header_pairs_app (a b : list jsstring) (pa pb : list (jsstring * jsstring)) :
  header_pairs a = Some pa -> header_pairs b = Some pb ->
  header_pairs (a ++ b) = Some (pa ++ pb).
Proof.
  revert pa. induction a as [|l a IH]; intros pa Ha Hb; cbn [app header_pairs] in *.
  - now injection Ha as <-.
  - destruct (break_at COLON l) as [kv|]; [|discriminate].
    destruct (header_pairs a) as [hs|]; [|discriminate].
    injection Ha as <-. now rewrite (IH hs eq_refl Hb).
Qed.

Lemma header_pairs_escaped (h : obj) :
  Forall (fun e => ~ In COLON (fst e)) h ->
  header_pairs (map (fun e => fst e ++ COLON :: hdrValueEscape (snd e)) h)
  = Some (map escaped_pair h).
Proof.
  induction 1 as [|e h Hk _ IH]; [reflexivity|].
  cbn [map header_pairs]. rewrite break_at_first by assumption. now rewrite IH.
Qed.

(** The escaped form of a value has no line feed in it. *)
Lemma hdrValueEscape_no_LF (s : jsstring) : ~ In LF (hdrValueEscape s).
Proof.
  rewrite hdrValueEscape_flat_map. intros Hin.
  apply in_flat_map in Hin as [c [_ Hin]]. revert Hin. unfold escape_unit.
  destruct (Z.eqb_spec c BACKSLASH); [cbn; intuition discriminate|].
  destruct (Z.eqb_spec c CR); [cbn; intuition discriminate|].
  destruct (Z.eqb_spec c LF); [cbn; intuition discriminate|].
  destruct (Z.eqb_spec c COLON); [cbn; intuition discriminate|].
  cbn. intuition.
Qed.

Lemma header_lines_escaped (this : Frame) :
  escapeHeaderValues this = true ->
  command this <> CONNECT -> command this <> CONNECTED ->
  NoDup (Object_keys (headers this)) ->
  map (header_line this) (Object_keys (headers this))
  = map (fun e => fst e ++ COLON :: hdrValueEscape (snd e)) (headers this).
Proof.
  intros Hesc Hc1 Hc2 Hnd. unfold Object_keys. rewrite map_map.
  apply map_ext_in. intros [k v] Hin. unfold header_line. cbn [fst snd].
  rewrite (obj_get_In k v) by assumption.
  now rewrite Hesc, !str_eqb_neq by assumption.
Qed.

Lemma undigits_digits (d : Decimal.uint) : undigits (digits d) = Some d.
Proof. induction d; cbn [digits undigits]; try rewrite IHd; reflexivity. Qed.

Lemma parse_length_Number_toString (n : nat) :
  parse_length (Number_toString n) = Some n.
Proof.
  unfold parse_length, Number_toString.
  destruct (digits (N.to_uint (N.of_nat n))) as [|c t] eqn:E.
  - exfalso. destruct (N.of_nat n) as [|p]; [discriminate E|].
    cbn [N.to_uint] in E. pose proof (DecimalPos.Unsigned.to_uint_nonnil p) as Hp.
    destruct (Pos.to_uint p); try discriminate E. now apply Hp.
  - rewrite <- E, undigits_digits. cbn [option_map].
    now rewrite DecimalN.Unsigned.of_to, Nat2N.id.
Qed.

Lemma utf8_bytes_nonzero (c : Z) : c <> 0 -> ~ In 0 (utf8_bytes c).
Proof.
  intros Hc. unfold utf8_bytes.
  destruct (c <? 0x80); [cbn [In]; intuition congruence|].
  destruct (c <? 0x800); [|destruct (c <? 0x10000)]; cbn [In];
    intros H; repeat (destruct H as [H|H];
      [apply Z.lor_eq_0_iff in H; destruct H; discriminate|]); exact H.
Qed.

Lemma surrogate_pair_nonzero (c d : code_unit) :
  is_high_surrogate c = true -> is_low_surrogate d = true -> surrogate_pair c d <> 0.
Proof.
  unfold is_high_surrogate, is_low_surrogate, surrogate_pair. intros Hc Hd.
  apply andb_true_iff in Hc as [Hc _]. apply andb_true_iff in Hd as [Hd _].
  apply Z.leb_le in Hc, Hd.
  assert (0 <= Z.shiftl (c - 0xD800) 10) by (apply Z.shiftl_nonneg; lia).
  lia.
Qed.

Lemma USVString_nonzero (s : jsstring) :
  ~ In NULL s -> ~ In 0 (USVString s).
Proof.
  assert (H : forall n s, (length s <= n)%nat -> ~ In NULL s -> ~ In 0 (USVString s)).
  { clear s. induction n as [|n IH]; intros s Hn Hs.
    - destruct s; [cbn; auto | simpl in Hn; lia].
    - destruct s as [|c s]; [cbn; auto|].
      simpl in Hn. cbn [USVString].
      assert (Hs' : ~ In NULL s) by (intros Hin; apply Hs; now right).
      assert (Hc : c <> 0) by (intros ->; apply Hs; now left).
      destruct (is_high_surrogate c) eqn:Ehi.
      + destruct s as [|d u]; [cbn; intuition discriminate|].
        simpl in Hn. destruct (is_low_surrogate d) eqn:Elo.
        * intros [Hin|Hin].
          -- revert Hin. now apply surrogate_pair_nonzero.
          -- revert Hin. apply IH; [lia|]. intros Hin. apply Hs'. now right.
        * intros [Hin|Hin]; [discriminate Hin|].
          revert Hin. apply IH; [simpl; lia | assumption].
      + destruct (is_low_surrogate c); intros [Hin|Hin];
          try discriminate Hin; try (now apply Hc);
          revert Hin; apply IH; (lia || assumption). }
  now apply (H (length s)).
Qed.

(** A text without a null character has no null byte in its encoding. *)
Lemma TextEncoder_encode_nonzero (s : jsstring) :
  ~ In NULL s -> ~ In 0 (TextEncoder_encode s).
Proof.
  intros Hs Hin. unfold TextEncoder_encode in Hin.
  apply in_flat_map in Hin as [c [Hc Hin]].
  revert Hin. apply utf8_bytes_nonzero. intros ->.
  revert Hc. now apply USVString_nonzero.
Qed.

Lemma TextEncoder_encode_terminated (text : jsstring) :
  TextEncoder_encode (text ++ [NULL]) = TextEncoder_encode text ++ [0].
Proof. rewrite TextEncoder_encode_snoc; [reflexivity | unfold NULL; lia]. Qed.

(** The body found through the declared length. *)
Lemma split_body_length (hs : list (jsstring * jsstring)) (text : jsstring) :
  obj_get content_length hs = Some (Number_toString (length (TextEncoder_encode text))) ->
  split_body hs (text ++ [NULL]) = Some (TextEncoder_encode text).
Proof.
  intros Hcl. unfold split_body.
  rewrite Hcl, parse_length_Number_toString, TextEncoder_encode_terminated.
  rewrite nth_error_app2, Nat.sub_diag by lia. cbn [nth_error].
  rewrite firstn_app, firstn_all, Nat.sub_diag. cbn [firstn].
  now rewrite app_nil_r.
Qed.

(** The body found through the null byte. *)
Lemma split_body_null (hs : list (jsstring * jsstring)) (text : jsstring) :
  obj_get content_length hs = None ->
  ~ In 0 (TextEncoder_encode text) ->
  split_body hs (text ++ [NULL]) = Some (TextEncoder_encode text).
Proof.
  intros Hcl Hz. unfold split_body.
  rewrite Hcl, TextEncoder_encode_terminated, break_at_first by assumption.
  reflexivity.
Qed.

Lemma obj_get_escaped (k : jsstring) (h : obj) :
  obj_get k (map escaped_pair h) = option_map hdrValueEscape (obj_get k h).
Proof.
  induction h as [|[k' v'] h IH]; [reflexivity|].
  cbn [map escaped_pair obj_get fst snd]. now destruct (str_eqb k' k).
Qed.

Lemma header_ok_spec (k v : jsstring) :
  header_ok (k, v) = true ->
  trim k = k /\ ~ In COLON k /\ ~ In LF k /\
  trim (hdrValueEscape v) = hdrValueEscape v /\ no_escape_lookalike v = true.
Proof.
  unfold header_ok. intros H.
  repeat (apply andb_true_iff in H as [H ?]).
  repeat split; auto.
  - now apply str_eqb_eq.
  - apply occurs_false. now apply negb_true_iff.
  - apply occurs_false. now apply negb_true_iff.
  - now apply str_eqb_eq.
Qed.

Lemma header_ok_no_PROTO (h : obj) :
  forallb header_ok h = true -> obj_get PROTO h = None.
Proof.
  induction h as [|[k v] h IH]; [reflexivity|].
  cbn [forallb obj_get]. intros H. apply andb_true_iff in H as [Hkv Hok].
  unfold header_ok in Hkv. apply andb_true_iff in Hkv as [_ Hp].
  apply negb_true_iff in Hp. rewrite Hp. auto.
Qed.

(** What [fromRawFrame] reads back from the pairs of a header block. *)
Lemma decoded_escaped_get (cmd : jsstring) (h : obj)
  (tail : list (jsstring * jsstring)) (k : jsstring) :
  cmd <> CONNECT -> cmd <> CONNECTED ->
  forallb header_ok h = true ->
  k <> content_length ->
  Forall (fun e => fst e = content_length) tail ->
  obj_get k (decoded_headers cmd true (map escaped_pair h ++ tail)) = obj_get k h.
Proof.
  intros Hc1 Hc2 Hok Hk Htail. destruct (str_eqb k PROTO) eqn:EP.
  { apply str_eqb_eq in EP. subst k.
    now rewrite decoded_headers_no_PROTO, header_ok_no_PROTO. }
  rewrite decoded_headers_get by (intros ->; now rewrite str_eqb_refl in EP).
  clear EP. induction h as [|[k' v'] h IH].
  - cbn [map app obj_get]. induction Htail as [|e tail He _ IHt]; [reflexivity|].
    cbn [find]. rewrite He.
    replace (str_eqb (trim content_length) k) with false; [exact IHt|].
    symmetry. apply str_eqb_neq. intros <-. now apply Hk.
  - cbn [forallb] in Hok. apply andb_true_iff in Hok as [Hkv Hok].
    apply header_ok_spec in Hkv as (Htk & _ & _ & Htv & Hlook).
    cbn [map app find escaped_pair fst snd obj_get]. rewrite Htk.
    destruct (str_eqb k' k).
    + cbn [option_map]. unfold header_value, escaped_pair. cbn [snd].
      rewrite !str_eqb_neq by assumption. cbn [negb andb].
      now rewrite Htv, hdrValueUnEscape_hdrValueEscape.
    + now apply IH.
Qed.

Lemma fromRawFrame_body (cmd : jsstring) (hs : list (jsstring * jsstring))
  (b : bytes) (esc : bool) :
  fst (body (fst (fromRawFrame
    {| raw_command := cmd; raw_headers := hs; raw_binaryBody := Some b |} esc)))
  = Some (TextDecoder_decode b).
Proof. reflexivity. Qed.

Lemma wire_text_shape (cmd : jsstring) (hl : list jsstring) (rest : jsstring) :
  join LF (cmd :: hl) ++ [LF; LF] ++ rest = cmd ++ LF :: (unlines hl ++ LF :: rest).
Proof.
  change ([LF; LF] ++ rest) with ([LF] ++ LF :: rest).
  rewrite app_assoc, join_unlines.
  change (unlines (cmd :: hl)) with ((cmd ++ [LF]) ++ unlines hl).
  rewrite <- !app_assoc. reflexivity.
Qed.

(** The splitter on a text laid out as a frame. *)
Lemma split_wire_text (cmd : jsstring) (hl : list jsstring)
  (hs : list (jsstring * jsstring)) (rest : jsstring) (b : bytes) :
  ~ In LF cmd ->
  Forall (fun l => l <> [] /\ ~ In LF l) hl ->
  header_pairs hl = Some hs ->
  split_body hs rest = Some b ->
  split (cmd ++ LF :: (unlines hl ++ LF :: rest))
  = Some {| raw_command := cmd; raw_headers := hs; raw_binaryBody := Some b |}.
Proof.
  intros Hcmd Hhl Hpairs Hbody. unfold split.
  rewrite break_at_first by assumption.
  rewrite split_lines_unlines by assumption.
  now rewrite Hpairs, Hbody.
Qed.

Lemma digits_no_LF (d : Decimal.uint) : ~ In LF (digits d).
Proof.
  induction d; cbn [digits In]; unfold LF; intuition discriminate.
Qed.

Lemma content_length_line_ok (n : nat) :
  content_length_line n <> [] /\ ~ In LF (content_length_line n).
Proof.
  split; [discriminate|]. unfold content_length_line, Number_toString.
  intros Hin. apply in_app_or in Hin as [Hin|Hin].
  - revert Hin. apply occurs_false. reflexivity.
  - cbn [app In] in Hin. destruct Hin as [Hin|Hin]; [discriminate Hin|].
    revert Hin. apply digits_no_LF.
Qed.

Lemma content_length_line_pair (n : nat) :
  header_pairs [content_length_line n] = Some [(content_length, Number_toString n)].
Proof.
  unfold content_length_line. cbn [header_pairs].
  change (content_length ++ [COLON] ++ Number_toString n)
    with (content_length ++ COLON :: Number_toString n).
  rewrite break_at_first; [reflexivity|]. apply occurs_false. reflexivity.
Qed.

Lemma escaped_line_ok (k v : jsstring) :
  ~ In LF k ->
  k ++ COLON :: hdrValueEscape v <> [] /\ ~ In LF (k ++ COLON :: hdrValueEscape v).
Proof.
  intros Hk. split; [now destruct k|].
  intros Hin. apply in_app_or in Hin as [Hin|[Hin|Hin]].
  - now apply Hk.
  - discriminate Hin.
  - revert Hin. apply hdrValueEscape_no_LF.
Qed.

Lemma forallb_filter {A} (p q : A -> bool) (l : list A) :
  forallb p l = true -> forallb p (filter q l) = true.
Proof.
  rewrite !forallb_forall. intros H x Hx. apply filter_In in Hx as [Hx _]. auto.
Qed.

(** ** UTF-8 encoding and decoding *)

Lemma utf8_decode_run (st : utf8_state) (bs rest : bytes) :
  utf8_decode st (bs ++ rest)
  = fst (utf8_run st bs) ++ utf8_decode (snd (utf8_run st bs)) rest.
Proof.
  revert st. induction bs as [|b bs IH]; intros st; [reflexivity|].
  cbn [app utf8_decode utf8_run]. rewrite IH.
  destruct (utf8_run (snd (utf8_step st b)) bs) as [out st']. cbn [fst snd].
  now rewrite app_assoc.
Qed.

(** Bits that do not overlap add up. *)
Lemma lor_high_low (a y n : Z) :
  0 <= n -> 0 <= y < 2 ^ n -> Z.lor (a * 2 ^ n) y = a * 2 ^ n + y.
Proof.
  intros Hn Hy.
  assert (Hland : Z.land (a * 2 ^ n) y = 0).
  { apply Z.bits_inj'. intros i Hi. rewrite Z.land_spec, Z.bits_0.
    destruct (Z.lt_ge_cases i n) as [Hlt|Hge].
    - now rewrite Z.mul_pow2_bits_low.
    - rewrite <- (Z.mod_small y (2 ^ n)) by assumption.
      rewrite Z.mod_pow2_bits_high by lia. apply andb_false_r. }
  rewrite <- Z.lxor_lor by assumption. symmetry. now apply Z.add_nocarry_lxor.
Qed.

Lemma land_low (b n : Z) : 0 <= n -> Z.land b (Z.ones n) = b mod 2 ^ n.
Proof. intros Hn. now apply Z.land_ones. Qed.

Ltac to_arith :=
  rewrite ?Z.shiftr_div_pow2, ?Z.shiftl_mul_pow2 by lia;
  change 0x3F with (Z.ones 6); change 0x1F with (Z.ones 5);
  change 0xF with (Z.ones 4); change 0x7 with (Z.ones 3);
  rewrite ?land_low by lia;
  change (2 ^ 3) with 8; change (2 ^ 4) with 16; change (2 ^ 5) with 32;
  change (2 ^ 6) with 64; change (2 ^ 12) with 4096; change (2 ^ 18) with 262144.

Lemma lor_0x80 (y : Z) : 0 <= y < 64 -> Z.lor 0x80 y = 0x80 + y.
Proof. intros Hy. apply (lor_high_low 2 y 6); [lia | exact Hy]. Qed.

Lemma lor_0xC0 (x : Z) : 0 <= x < 32 -> Z.lor 0xC0 x = 0xC0 + x.
Proof. intros Hx. apply (lor_high_low 6 x 5); [lia | exact Hx]. Qed.

Lemma lor_0xE0 (x : Z) : 0 <= x < 16 -> Z.lor 0xE0 x = 0xE0 + x.
Proof. intros Hx. apply (lor_high_low 14 x 4); [lia | exact Hx]. Qed.

Lemma lor_0xF0 (x : Z) : 0 <= x < 8 -> Z.lor 0xF0 x = 0xF0 + x.
Proof. intros Hx. apply (lor_high_low 30 x 3); [lia | exact Hx]. Qed.

Lemma utf8_bytes_1 (c : Z) : c < 0x80 -> utf8_bytes c = [c].
Proof.
  intros Hc. unfold utf8_bytes.
  now replace (c <? 0x80) with true by (symmetry; apply Z.ltb_lt; lia).
Qed.

Lemma utf8_bytes_2 (c : Z) :
  0x80 <= c < 0x800 -> utf8_bytes c = [0xC0 + c / 64; 0x80 + c mod 64].
Proof.
  intros Hc. unfold utf8_bytes.
  replace (c <? 0x80) with false by (symmetry; apply Z.ltb_ge; lia).
  replace (c <? 0x800) with true by (symmetry; apply Z.ltb_lt; lia).
  to_arith.
  rewrite lor_0xC0, lor_0x80; [reflexivity | |];
    Z.div_mod_to_equations; lia.
Qed.

Lemma utf8_bytes_3 (c : Z) :
  0x800 <= c < 0x10000 ->
  utf8_bytes c = [0xE0 + c / 4096; 0x80 + (c / 64) mod 64; 0x80 + c mod 64].
Proof.
  intros Hc. unfold utf8_bytes.
  replace (c <? 0x80) with false by (symmetry; apply Z.ltb_ge; lia).
  replace (c <? 0x800) with false by (symmetry; apply Z.ltb_ge; lia).
  replace (c <? 0x10000) with true by (symmetry; apply Z.ltb_lt; lia).
  to_arith.
  rewrite lor_0xE0, !lor_0x80; [reflexivity | | |];
    Z.div_mod_to_equations; lia.
Qed.

Lemma utf8_bytes_4 (c : Z) :
  0x10000 <= c < 0x110000 ->
  utf8_bytes c = [0xF0 + c / 262144; 0x80 + (c / 4096) mod 64;
                  0x80 + (c / 64) mod 64; 0x80 + c mod 64].
Proof.
  intros Hc. unfold utf8_bytes.
  replace (c <? 0x80) with false by (symmetry; apply Z.ltb_ge; lia).
  replace (c <? 0x800) with false by (symmetry; apply Z.ltb_ge; lia).
  replace (c <? 0x10000) with false by (symmetry; apply Z.ltb_ge; lia).
  to_arith.
  rewrite lor_0xF0, !lor_0x80; [reflexivity | | | |];
    Z.div_mod_to_equations; lia.
Qed.

Lemma land_lead (h x n : Z) :
  0 <= n -> 0 <= x < 2 ^ n -> Z.land (h * 2 ^ n + x) (Z.ones n) = x.
Proof.
  intros Hn Hx. rewrite Z.land_ones by assumption.
  rewrite Z.add_comm, Z.mod_add by lia. now apply Z.mod_small.
Qed.

Lemma accumulate (cp y : Z) :
  0 <= y < 64 ->
  Z.lor (Z.shiftl cp 6) (Z.land (0x80 + y) 0x3F) = cp * 64 + y.
Proof.
  intros Hy.
  replace (Z.land (0x80 + y) 0x3F) with y
    by (symmetry; apply (land_lead 2 y 6); [lia | exact Hy]).
  rewrite Z.shiftl_mul_pow2 by lia. now apply lor_high_low.
Qed.

Ltac decide_cmp :=
  repeat match goal with
  | |- context [?a <=? ?b] =>
      first [ replace (a <=? b) with true by (symmetry; apply Z.leb_le; lia)
            | replace (a <=? b) with false by (symmetry; apply Z.leb_gt; lia) ]
  | |- context [?a <? ?b] =>
      first [ replace (a <? b) with true by (symmetry; apply Z.ltb_lt; lia)
            | replace (a <? b) with false by (symmetry; apply Z.ltb_ge; lia) ]
  | |- context [?a =? ?b] =>
      first [ replace (a =? b) with true by (symmetry; apply Z.eqb_eq; lia)
            | replace (a =? b) with false by (symmetry; apply Z.eqb_neq; lia) ]
  end.

(** A continuation byte within the bounds of the state. *)
Lemma utf8_step_continuation (st : utf8_state) (y : Z) :
  bytes_needed st <> 0 -> 0 <= y < 64 ->
  lower_boundary st <= 0x80 + y <= upper_boundary st ->
  utf8_step st (0x80 + y) =
  if bytes_needed st =? 1 then ([code_point st * 64 + y], utf8_start)
  else ([], {| code_point := code_point st * 64 + y;
               bytes_needed := bytes_needed st - 1;
               lower_boundary := 0x80; upper_boundary := 0xBF |}).
Proof.
  intros Hn Hy Hb. unfold utf8_step.
  replace (bytes_needed st =? 0) with false by (symmetry; now apply Z.eqb_neq).
  replace (0x80 + y <? lower_boundary st) with false by (symmetry; apply Z.ltb_ge; lia).
  replace (upper_boundary st <? 0x80 + y) with false by (symmetry; apply Z.ltb_ge; lia).
  cbn [orb]. cbv zeta. now rewrite accumulate.
Qed.

Lemma utf8_run_1 (c : Z) :
  0 <= c < 0x80 -> utf8_run utf8_start [c] = ([c], utf8_start).
Proof.
  intros Hc. cbn [utf8_run]. unfold utf8_step, utf8_lead. cbn [bytes_needed utf8_start].
  decide_cmp. reflexivity.
Qed.

Lemma utf8_run_2 (x y : Z) :
  2 <= x < 32 -> 0 <= y < 64 ->
  utf8_run utf8_start [0xC0 + x; 0x80 + y] = ([x * 64 + y], utf8_start).
Proof.
  intros Hx Hy. cbn [utf8_run].
  assert (Hlead : utf8_step utf8_start (0xC0 + x)
                  = ([], {| code_point := x; bytes_needed := 1;
                            lower_boundary := 0x80; upper_boundary := 0xBF |})).
  { unfold utf8_step, utf8_lead. cbn [bytes_needed utf8_start]. decide_cmp.
    cbn [andb].
    replace (Z.land (0xC0 + x) 0x1F) with x
      by (symmetry; apply (land_lead 6 x 5); [lia | change (2 ^ 5) with 32; lia]).
    reflexivity. }
  rewrite Hlead. cbn [fst snd].
  rewrite utf8_step_continuation
      by (cbn [bytes_needed lower_boundary upper_boundary]; lia).
  reflexivity.
Qed.

Lemma utf8_run_3 (x y z : Z) :
  0 <= x < 16 -> 0 <= y < 64 -> 0 <= z < 64 ->
  (x = 0 -> 32 <= y) -> (x = 13 -> y < 32) ->
  utf8_run utf8_start [0xE0 + x; 0x80 + y; 0x80 + z]
  = ([(x * 64 + y) * 64 + z], utf8_start).
Proof.
  intros Hx Hy Hz Hlow Hhigh. cbn [utf8_run].
  assert (Hlead : utf8_step utf8_start (0xE0 + x)
                  = ([], {| code_point := x; bytes_needed := 2;
                            lower_boundary := if x =? 0 then 0xA0 else 0x80;
                            upper_boundary := if x =? 13 then 0x9F else 0xBF |})).
  { unfold utf8_step, utf8_lead. cbn [bytes_needed utf8_start].
    replace (Z.land (0xE0 + x) 0xF) with x
      by (symmetry; apply (land_lead 14 x 4); [lia | change (2 ^ 4) with 16; lia]).
    destruct (Z.eqb_spec x 0) as [->|H0]; [reflexivity|].
    destruct (Z.eqb_spec x 13) as [->|H13]; [reflexivity|].
    decide_cmp. reflexivity. }
  rewrite Hlead. cbn [fst snd].
  rewrite utf8_step_continuation; cbn [bytes_needed lower_boundary upper_boundary code_point];
    [ | lia | assumption | ].
  - change (2 =? 1) with false. change (2 - 1) with 1. cbn [fst snd].
    rewrite utf8_step_continuation
      by (cbn [bytes_needed lower_boundary upper_boundary]; lia). reflexivity.
  - destruct (Z.eqb_spec x 0), (Z.eqb_spec x 13); lia.
Qed.

Lemma utf8_run_4 (x y z t : Z) :
  0 <= x <= 4 -> 0 <= y < 64 -> 0 <= z < 64 -> 0 <= t < 64 ->
  (x = 0 -> 16 <= y) -> (x = 4 -> y < 16) ->
  utf8_run utf8_start [0xF0 + x; 0x80 + y; 0x80 + z; 0x80 + t]
  = ([((x * 64 + y) * 64 + z) * 64 + t], utf8_start).
Proof.
  intros Hx Hy Hz Ht Hlow Hhigh. cbn [utf8_run].
  assert (Hlead : utf8_step utf8_start (0xF0 + x)
                  = ([], {| code_point := x; bytes_needed := 3;
                            lower_boundary := if x =? 0 then 0x90 else 0x80;
                            upper_boundary := if x =? 4 then 0x8F else 0xBF |})).
  { unfold utf8_step, utf8_lead. cbn [bytes_needed utf8_start].
    replace (Z.land (0xF0 + x) 0x7) with x
      by (symmetry; apply (land_lead 30 x 3); [lia | change (2 ^ 3) with 8; lia]).
    destruct (Z.eqb_spec x 0) as [->|H0]; [reflexivity|].
    destruct (Z.eqb_spec x 4) as [->|H4]; [reflexivity|].
    decide_cmp. reflexivity. }
  rewrite Hlead. cbn [fst snd].
  rewrite utf8_step_continuation; cbn [bytes_needed lower_boundary upper_boundary code_point];
    [ | lia | assumption | ].
  - change (3 =? 1) with false. change (3 - 1) with 2. cbn [fst snd].
    rewrite utf8_step_continuation
      by (cbn [bytes_needed lower_boundary upper_boundary]; lia).
    cbn [bytes_needed lower_boundary upper_boundary code_point].
    change (2 =? 1) with false. change (2 - 1) with 1. cbn [fst snd].
    rewrite utf8_step_continuation
      by (cbn [bytes_needed lower_boundary upper_boundary]; lia). reflexivity.
  - destruct (Z.eqb_spec x 0), (Z.eqb_spec x 4); lia.
Qed.

(** The bytes of a scalar value decode to it and leave the decoder
    where it started. *)
Lemma utf8_run_scalar (c : Z) :
  is_scalar c = true -> utf8_run utf8_start (utf8_bytes c) = ([c], utf8_start).
Proof.
  unfold is_scalar. intros Hc.
  assert (Hrange : 0 <= c < 0xD800 \/ 0xE000 <= c < 0x110000).
  { apply orb_true_iff in Hc as [Hc|Hc]; apply andb_true_iff in Hc as [H1 H2];
      apply Z.leb_le in H1; apply Z.ltb_lt in H2; lia. }
  clear Hc.
  destruct (Z.lt_ge_cases c 0x80) as [H1|H1].
  { rewrite utf8_bytes_1 by lia. apply utf8_run_1. lia. }
  destruct (Z.lt_ge_cases c 0x800) as [H2|H2].
  { rewrite utf8_bytes_2 by lia. rewrite utf8_run_2.
    - do 2 f_equal. Z.div_mod_to_equations; lia.
    - Z.div_mod_to_equations; lia.
    - Z.div_mod_to_equations; lia. }
  destruct (Z.lt_ge_cases c 0x10000) as [H3|H3].
  { rewrite utf8_bytes_3 by lia. rewrite utf8_run_3.
    - do 2 f_equal. Z.div_mod_to_equations; lia.
    - Z.div_mod_to_equations; lia.
    - Z.div_mod_to_equations; lia.
    - Z.div_mod_to_equations; lia.
    - Z.div_mod_to_equations; lia.
    - Z.div_mod_to_equations; lia. }
  rewrite utf8_bytes_4 by lia. rewrite utf8_run_4.
  - do 2 f_equal. Z.div_mod_to_equations; lia.
  - Z.div_mod_to_equations; lia.
  - Z.div_mod_to_equations; lia.
  - Z.div_mod_to_equations; lia.
  - Z.div_mod_to_equations; lia.
  - Z.div_mod_to_equations; lia.
  - Z.div_mod_to_equations; lia.
Qed.

Lemma utf8_decode_scalars (cs : list Z) :
  Forall (fun c => is_scalar c = true) cs ->
  utf8_decode utf8_start (flat_map utf8_bytes cs) = cs.
Proof.
  induction 1 as [|c cs Hc _ IH]; [reflexivity|].
  cbn [flat_map]. rewrite utf8_decode_run, utf8_run_scalar by assumption.
  cbn [fst snd app]. now rewrite IH.
Qed.

Lemma surrogate_pair_range (c d : code_unit) :
  is_high_surrogate c = true -> is_low_surrogate d = true ->
  0x10000 <= surrogate_pair c d < 0x110000 /\
  utf16_units (surrogate_pair c d) = [c; d].
Proof.
  unfold is_high_surrogate, is_low_surrogate. intros Hc Hd.
  apply andb_true_iff in Hc as [Hc1 Hc2]. apply andb_true_iff in Hd as [Hd1 Hd2].
  apply Z.leb_le in Hc1, Hc2, Hd1, Hd2.
  assert (Hv : surrogate_pair c d = 0x10000 + ((c - 0xD800) * 1024 + (d - 0xDC00))).
  { unfold surrogate_pair. rewrite Z.shiftl_mul_pow2 by lia.
    change (2 ^ 10) with 1024. lia. }
  split; [lia|]. unfold utf16_units.
  replace (surrogate_pair c d <? 0x10000) with false by (symmetry; apply Z.ltb_ge; lia).
  rewrite Hv. rewrite Z.shiftr_div_pow2 by lia.
  change 0x3FF with (Z.ones 10). rewrite Z.land_ones by lia.
  change (2 ^ 10) with 1024.
  replace (0x10000 + ((c - 0xD800) * 1024 + (d - 0xDC00)) - 0x10000)
    with ((c - 0xD800) * 1024 + (d - 0xDC00)) by lia.
  f_equal; [|f_equal]; Z.div_mod_to_equations; lia.
Qed.

(** The scalar values of a well-formed string are scalar values
    indeed, they spell the string, and the first is a byte order mark
    only if the string starts with one. *)
Lemma USVString_well_formed (s : jsstring) :
  well_formed_utf16 s = true ->
  Forall (fun c => is_scalar c = true) (USVString s) /\
  flat_map utf16_units (USVString s) = s /\
  (hd_error (USVString s) = Some 0xFEFF -> hd_error s = Some 0xFEFF).
Proof.
  assert (H : forall n s, (length s <= n)%nat -> well_formed_utf16 s = true ->
            Forall (fun c => is_scalar c = true) (USVString s) /\
            flat_map utf16_units (USVString s) = s /\
            (hd_error (USVString s) = Some 0xFEFF -> hd_error s = Some 0xFEFF)).
  { clear s. induction n as [|n IH]; intros s Hn Hwf.
    - destruct s; [cbn; auto | simpl in Hn; lia].
    - destruct s as [|c s]; [cbn; auto|].
      simpl in Hn. cbn [well_formed_utf16 USVString] in *.
      destruct (is_high_surrogate c) eqn:Ehi.
      + destruct s as [|d u]; [discriminate|].
        simpl in Hn. apply andb_true_iff in Hwf as [Elo Hwf]. rewrite Elo.
        destruct (IH u ltac:(lia) Hwf) as (Hsc & Hspell & _).
        destruct (surrogate_pair_range c d Ehi Elo) as [Hr Hu].
        split; [|split].
        * constructor; [|assumption]. unfold is_scalar.
          replace (0xE000 <=? surrogate_pair c d) with true
            by (symmetry; apply Z.leb_le; lia).
          replace (surrogate_pair c d <? 0x110000) with true
            by (symmetry; apply Z.ltb_lt; lia).
          apply orb_true_r.
        * cbn [flat_map]. now rewrite Hu, Hspell.
        * cbn [hd_error]. intros Hbom. injection Hbom as Hbom. lia.
      + repeat (apply andb_true_iff in Hwf as [Hwf ?]).
        apply negb_true_iff in Hwf. rewrite Hwf.
        destruct (IH s ltac:(lia) H) as (Hsc & Hspell & _).
        assert (Hlo : 0 <= c) by now apply Z.leb_le.
        assert (Hup : c < 0x10000) by now apply Z.ltb_lt.
        split; [|split].
        * constructor; [|assumption]. unfold is_scalar.
          unfold is_high_surrogate, is_low_surrogate in *.
          destruct (Z.leb_spec 0 c); [|lia].
          destruct (Z.ltb_spec c 0xD800); [reflexivity|].
          destruct (Z.leb_spec 0xE000 c); destruct (Z.ltb_spec c 0x110000);
            cbn [andb orb]; try reflexivity; lia.
        * cbn [flat_map]. unfold utf16_units at 1.
          replace (c <? 0x10000) with true by (symmetry; now apply Z.ltb_lt).
          cbn [app]. now rewrite Hspell.
        * cbn [hd_error]. auto. }
  now apply (H (length s)).
Qed.

(** Encoding a well-formed string that does not start with a byte
    order mark and decoding the bytes gives the string again. *)
Lemma TextDecoder_decode_TextEncoder_encode (s : jsstring) :
  well_formed_utf16 s = true -> hd_error s <> Some 0xFEFF ->
  TextDecoder_decode (TextEncoder_encode s) = s.
Proof.
  intros Hwf Hbom. destruct (USVString_well_formed s Hwf) as (Hsc & Hspell & Hhead).
  unfold TextDecoder_decode, TextEncoder_encode.
  rewrite utf8_decode_scalars by assumption.
  assert (Hstrip : strip_bom (USVString s) = USVString s).
  { destruct (USVString s) as [|c cs] eqn:E; [reflexivity|].
    cbn [strip_bom]. destruct (Z.eqb_spec c 0xFEFF) as [->|Hc]; [|reflexivity].
    exfalso. apply Hbom, Hhead. reflexivity. }
  now rewrite Hstrip.
Qed.

(** ** The round trip of a text frame *)

(** A text frame whose headers cross the wire unchanged is split into
    its command, the escaped pairs of its headers and the encoding of
    its body, and these pairs decode to its headers. *)
Lemma split_serialize (this : Frame) (text : jsstring) :
  Frame_inv this ->
  isBinaryBody this = false -> _body this = Some text ->
  escapeHeaderValues this = true ->
  command this <> CONNECT -> command this <> CONNECTED ->
  ~ In LF (command this) ->
  NoDup (Object_keys (headers this)) ->
  forallb header_ok (headers this) = true ->
  skipContentLengthHeader this = true \/ obj_get content_length (headers this) = None ->
  (skipContentLengthHeader this = true -> ~ In NULL text) ->
  exists w hs,
    fst (serialize this) = Some (Text w) /\
    split w = Some {| raw_command := command this; raw_headers := hs;
                      raw_binaryBody := Some (TextEncoder_encode text) |} /\
    forall k, k <> content_length ->
      obj_get k (decoded_headers (command this) true hs) = obj_get k (headers this).
Proof.
  intros Hinv Hbin Hbody Hesc Hc1 Hc2 Hlf Hnd Hok Hcl Hnull.
  set (w := without_skipped this).
  assert (Hw : command w = command this /\ escapeHeaderValues w = escapeHeaderValues this)
    by (unfold w, without_skipped; now destruct (skipContentLengthHeader this)).
  destruct Hw as [Hcw Hew].
  assert (Hnd' : NoDup (Object_keys (headers w))).
  { unfold w, without_skipped. destruct (skipContentLengthHeader this); [|assumption].
    cbn [headers set_headers]. now apply obj_delete_keys_NoDup. }
  assert (Hok' : forallb header_ok (headers w) = true).
  { unfold w, without_skipped. destruct (skipContentLengthHeader this); [|assumption].
    cbn [headers set_headers]. now apply forallb_filter. }
  assert (Hcl' : obj_get content_length (headers w) = None).
  { unfold w, without_skipped. destruct (skipContentLengthHeader this).
    - cbn [headers set_headers]. apply obj_get_delete_same.
    - destruct Hcl; [discriminate | assumption]. }
  assert (Hget : forall k, k <> content_length ->
            obj_get k (headers w) = obj_get k (headers this)).
  { intros k Hk. unfold w, without_skipped.
    destruct (skipContentLengthHeader this); [|reflexivity].
    cbn [headers set_headers]. apply obj_get_delete_other. congruence. }
  assert (Hn : byte_length this = length (TextEncoder_encode text))
    by (unfold byte_length; now rewrite Hbin, Hbody).
  set (n := length (TextEncoder_encode text)) in *.
  set (emit := negb (n =? 0)%nat && negb (skipContentLengthHeader this)).
  set (hs := map escaped_pair (headers w)
             ++ (if emit then [(content_length, Number_toString n)] else [])).
  set (hl := map (fun e => fst e ++ COLON :: hdrValueEscape (snd e)) (headers w)
             ++ (if emit then [content_length_line n] else [])).
  assert (Hlines : fst (serializeLines this) = command this :: hl).
  { rewrite serializeLines_eq by assumption. fold w.
    rewrite header_lines_escaped by congruence.
    rewrite Hbin, Hn. reflexivity. }
  exists (command this ++ LF :: (unlines hl ++ LF :: (text ++ [NULL]))), hs.
  split; [|split].
  - rewrite serialize_eq by assumption. cbv zeta.
    rewrite Hbin, Hbody, Hlines. cbn [or_default].
    now rewrite wire_text_shape.
  - apply split_wire_text; [assumption| | |].
    + unfold hl. apply Forall_app. split.
      * apply Forall_forall. intros l Hl. apply in_map_iff in Hl as [[k v] [<- Hin]].
        cbn [fst snd]. apply escaped_line_ok.
        rewrite forallb_forall in Hok'. now apply Hok', header_ok_spec in Hin.
      * destruct emit; constructor; [apply content_length_line_ok | constructor].
    + unfold hl, hs. apply header_pairs_app.
      * apply header_pairs_escaped. apply Forall_forall. intros [k v] Hin. cbn [fst].
        rewrite forallb_forall in Hok'. now apply Hok', header_ok_spec in Hin.
      * destruct emit; [apply content_length_line_pair | reflexivity].
    + destruct emit eqn:Eemit.
      * apply split_body_length. unfold hs.
        rewrite obj_get_app, obj_get_escaped, Hcl'. cbn [option_map obj_get].
        now rewrite str_eqb_refl.
      * apply split_body_null.
        -- unfold hs. rewrite obj_get_app, obj_get_escaped, Hcl'. reflexivity.
        -- unfold emit in Eemit. apply andb_false_iff in Eemit as [E|E].
           ++ apply negb_false_iff, Nat.eqb_eq in E.
              fold n. destruct (TextEncoder_encode text); [auto | discriminate E].
           ++ apply negb_false_iff in E. now apply TextEncoder_encode_nonzero, Hnull.
  - intros k Hk. unfold hs. rewrite decoded_escaped_get; auto.
    destruct emit; repeat constructor.
Qed.

Lemma drop_spaces_head (s : jsstring) (c : code_unit) :
  hd_error (drop_spaces s) = Some c -> is_space c = false.
Proof.
  induction s as [|a s IH]; cbn [drop_spaces]; [discriminate|].
  destruct (is_space a) eqn:E; [assumption|].
  cbn. intros H. now injection H as <-.
Qed.

Lemma drop_spaces_last (l : jsstring) (a : code_unit) :
  is_space a = false -> drop_spaces (l ++ [a]) = drop_spaces l ++ [a].
Proof.
  intros Ha. induction l as [|b l IH]; cbn [app drop_spaces].
  - now rewrite Ha.
  - now destruct (is_space b).
Qed.

(** A trimmed text does not start with white space. *)
Lemma trim_head (s : jsstring) (c : code_unit) :
  hd_error (trim s) = Some c -> is_space c = false.
Proof.
  unfold trim. destruct (drop_spaces s) as [|a t] eqn:E; [discriminate|].
  assert (Ha : is_space a = false) by (apply (drop_spaces_head s); now rewrite E).
  cbn [rev]. rewrite drop_spaces_last, rev_app_distr by assumption.
  cbn. intros H. now injection H as <-.
Qed.

Lemma replace_pair_head (x y : code_unit) (rep s : jsstring) (c : code_unit) :
  hd_error s <> Some c -> hd_error rep <> Some c -> rep <> [] ->
  hd_error (replace_pair x y rep s) <> Some c.
Proof.
  intros Hs Hrep Hne. destruct s as [|a [|b u]]; cbn [replace_pair]; auto.
  destruct ((a =? x) && (b =? y)); [|exact Hs].
  destruct rep; [now elim Hne | exact Hrep].
Qed.

(** Whatever raw frame is handed over, no decoded value starts with a
    space when escaping applies: no splitter makes the headers of
    [padded_value] come back. *)
Lemma decoded_value_head (rawFrame : RawFrame) (k v : jsstring) :
  raw_command rawFrame <> CONNECT -> raw_command rawFrame <> CONNECTED ->
  obj_get k (headers (fst (fromRawFrame rawFrame true))) = Some v ->
  hd_error v <> Some 32.
Proof.
  intros Hc1 Hc2 G. rewrite fromRawFrame_get in G.
  apply decoded_headers_value in G as (header & _ & _ & ->).
  unfold header_value. rewrite !str_eqb_neq by assumption. cbn [andb negb].
  unfold hdrValueUnEscape.
  repeat (apply replace_pair_head; [| discriminate | discriminate]).
  intros H. apply trim_head in H. discriminate H.
Qed.

(** C4, as stated, fails: [fromRawFrame] trims every value, so the
    header [b] with the value space-z comes back with the value z. *)
Lemma C4_padded_value_not_restored :
  ~ (exists back,
       roundtrip padded_value = Some back /\
       command back = command (new_Frame padded_value) /\
       (forall k, k <> content_length ->
          obj_get k (headers back) = obj_get k (headers (new_Frame padded_value))) /\
       fst (body back) = fst (body (new_Frame padded_value))).
Proof.
  intros (back & Hback & _ & Hh & _).
  vm_compute in Hback. injection Hback as <-.
  specialize (Hh (js "b")). vm_compute in Hh.
  assert (H : Some [122] = Some [32; 122]) by (apply Hh; discriminate).
  discriminate H.
Qed.

(** C4, amended: take a text-bodied frame with escaping on and a
    command other than [CONNECT] and [CONNECTED] that has no line feed;
    let trimming change none of its header names and escaped header
    values, let no name contain a colon or a line feed and no value a
    backslash followed by [r], [n] or [c]; let the caller set no
    [content-length] header unless the frame skips it; let the body be
    well-formed UTF-16 that does not start with a byte order mark, and
    have no null character when the frame skips [content-length].
    Then the frame decoded from
    the split of its serialization has the same command, the same value
    for every header name other than [content-length], and the same
    body text. *)
Theorem C4_text_frame_round_trip (params : FrameParams) :
  let F := new_Frame params in
  let text := or_default (p_body params) [] in
  p_binaryBody params = None ->
  p_escapeHeaderValues params = Some true ->
  command F <> CONNECT -> command F <> CONNECTED ->
  ~ In LF (command F) ->
  forallb header_ok (headers F) = true ->
  skipContentLengthHeader F = true \/ obj_get content_length (headers F) = None ->
  well_formed_utf16 text = true -> hd_error text <> Some 0xFEFF ->
  (skipContentLengthHeader F = true -> ~ In NULL text) ->
  exists back,
    roundtrip params = Some back /\
    command back = command F /\
    (forall k, k <> content_length ->
       obj_get k (headers back) = obj_get k (headers F)) /\
    fst (body back) = fst (body F).
Proof.
  intros F text Hbin Hesc Hc1 Hc2 Hlf Hok Hcl Hwf Hbom Hnull.
  pose proof (TextDecoder_decode_TextEncoder_encode text Hwf Hbom) as Hutf.
  assert (HF : isBinaryBody F = false /\ _body F = Some text /\
               escapeHeaderValues F = true).
  { unfold F, new_Frame. rewrite Hbin, Hesc. cbn. auto. }
  destruct HF as (HFbin & HFbody & HFesc).
  destruct (split_serialize F text (new_Frame_inv params) HFbin HFbody HFesc
              Hc1 Hc2 Hlf (new_Frame_headers_NoDup params) Hok Hcl Hnull)
    as (w & hs & Hser & Hsplit & Hget).
  unfold roundtrip, marshall. fold F. rewrite Hser, Hsplit, Hesc. cbn [or_default].
  eexists. split; [reflexivity|]. split; [|split].
  - unfold fromRawFrame, new_Frame. cbn. reflexivity.
  - intros k Hk. rewrite fromRawFrame_get. cbn [raw_command raw_headers].
    now apply Hget.
  - rewrite fromRawFrame_body, Hutf.
    destruct (new_Frame_text_body params Hbin) as [_ [_ Hb]]. exact (eq_sym Hb).
Qed.

(** The sample message, with the colon of its destination, the
    backslash of its note and the accent of its body, comes back. *)
Lemma C4_text_frame_round_trip_witness :
  forallb header_ok (headers (new_Frame sample_message)) = true /\
  well_formed_utf16 hello = true /\
  exists back,
    roundtrip sample_message = Some back /\
    command back = command (new_Frame sample_message) /\
    (forall k, k <> content_length ->
       obj_get k (headers back) = obj_get k (headers (new_Frame sample_message))) /\
    fst (body back) = fst (body (new_Frame sample_message)).
Proof.
  split; [reflexivity|]. split; [reflexivity|].
  apply (C4_text_frame_round_trip sample_message).
  - reflexivity.
  - reflexivity.
  - discriminate.
  - discriminate.
  - apply occurs_false. reflexivity.
  - reflexivity.
  - right. reflexivity.
  - reflexivity.
  - discriminate.
  - discriminate.
Defined.

(** Why the amended round trip has its conditions: what comes back
    for frames that break one of them. *)
Lemma round_trip_limits :
  option_map (fun back => headers back) (roundtrip colon_in_name)
    = Some [(js "a", js "b:c")] /\
  option_map (fun back => fst (body back)) (roundtrip null_in_body)
    = Some (Some [65]) /\
  option_map (fun back => fst (body back)) (roundtrip lone_surrogate)
    = Some (Some [0xFFFD]) /\
  roundtrip stale_length = None /\
  option_map (fun back => obj_get (js "path") (headers back)) (roundtrip lookalike_value)
    = Some (Some [BACKSLASH; CR]).
Proof. repeat split; vm_compute; reflexivity. Qed.

(** * Further properties of the code *)

(** ** Escaping *)

Lemma escape_unit_safe (c d : code_unit) :
  In d (escape_unit c) -> d <> CR /\ d <> LF /\ d <> COLON.
Proof.
  unfold escape_unit.
  destruct (Z.eqb_spec c BACKSLASH); [cbn [In]; intuition (subst; discriminate)|].
  destruct (Z.eqb_spec c CR); [cbn [In]; intuition (subst; discriminate)|].
  destruct (Z.eqb_spec c LF); [cbn [In]; intuition (subst; discriminate)|].
  destruct (Z.eqb_spec c COLON); [cbn [In]; intuition (subst; discriminate)|].
  cbn [In]. intros [<-|[]]. auto.
Qed.

(** X1: an escaped value contains no carriage return, no line feed and
    no colon, whatever the value. *)
Theorem hdrValueEscape_wire_safe (s : jsstring) :
  ~ In CR (hdrValueEscape s) /\ ~ In LF (hdrValueEscape s)
  /\ ~ In COLON (hdrValueEscape s).
Proof.
  rewrite hdrValueEscape_flat_map.
  repeat split; intros Hin; apply in_flat_map in Hin as [c [_ Hin]];
    apply escape_unit_safe in Hin; intuition congruence.
Qed.

(** X2: on a value none of whose backslashes is followed by [r], [n]
    or [c], unescaping gives back what was escaped. *)
Theorem hdrValueUnEscape_inverts_hdrValueEscape (s : jsstring) :
  no_escape_lookalike s = true ->
  hdrValueUnEscape (hdrValueEscape s) = s.
Proof. apply hdrValueUnEscape_hdrValueEscape. Qed.

Lemma hdrValueUnEscape_inverts_hdrValueEscape_witness :
  no_escape_lookalike four_specials = true /\
  hdrValueUnEscape (hdrValueEscape four_specials) = four_specials.
Proof.
  split; [reflexivity|].
  apply (hdrValueUnEscape_inverts_hdrValueEscape four_specials). reflexivity.
Defined.

Lemma escape_unit_cancel (c d : code_unit) (r r' : jsstring) :
  escape_unit c ++ r = escape_unit d ++ r' -> c = d /\ r = r'.
Proof.
  unfold escape_unit.
  destruct (Z.eqb_spec c BACKSLASH); destruct (Z.eqb_spec c CR);
    destruct (Z.eqb_spec c LF); destruct (Z.eqb_spec c COLON);
    destruct (Z.eqb_spec d BACKSLASH); destruct (Z.eqb_spec d CR);
    destruct (Z.eqb_spec d LF); destruct (Z.eqb_spec d COLON);
    cbn [app]; intros H; injection H; intros; subst;
    try (split; [congruence | reflexivity]);
    try (exfalso; congruence); try discriminate.
Qed.

(** X3: escaping is injective: two values with the same escaped form
    are the same value. *)
Theorem hdrValueEscape_injective (s t : jsstring) :
  hdrValueEscape s = hdrValueEscape t -> s = t.
Proof.
  rewrite !hdrValueEscape_flat_map. revert t.
  induction s as [|c s IH]; intros [|d t] H; cbn [flat_map] in H.
  - reflexivity.
  - exfalso. unfold escape_unit in H.
    destruct (d =? BACKSLASH), (d =? CR), (d =? LF), (d =? COLON); discriminate H.
  - exfalso. unfold escape_unit in H.
    destruct (c =? BACKSLASH), (c =? CR), (c =? LF), (c =? COLON); discriminate H.
  - apply escape_unit_cancel in H as [-> H]. f_equal. now apply IH.
Qed.

Lemma hdrValueEscape_injective_witness :
  hdrValueEscape four_specials = hdrValueEscape four_specials /\
  four_specials = four_specials.
Proof.
  split; [reflexivity|].
  apply (hdrValueEscape_injective four_specials four_specials). reflexivity.
Defined.

Lemma replace_char_absent (x : code_unit) (rep s : jsstring) :
  ~ In x s -> replace_char x rep s = s.
Proof.
  induction s as [|a s IH]; [reflexivity|]. intros Hnot. cbn [replace_char].
  rewrite (proj2 (Z.eqb_neq a x)) by (intros ->; apply Hnot; now left).
  rewrite IH; [reflexivity|]. intros Hin. apply Hnot. now right.
Qed.

Lemma replace_pair_absent (x y : code_unit) (rep s : jsstring) :
  ~ In x s -> replace_pair x y rep s = s.
Proof.
  induction s as [|a s IH]; [reflexivity|]. intros Hnot.
  rewrite replace_pair_skip by (intros ->; apply Hnot; now left).
  rewrite IH; [reflexivity|]. intros Hin. apply Hnot. now right.
Qed.

Lemma plain_unit_spec (s : jsstring) :
  forallb plain_unit s = true ->
  ~ In BACKSLASH s /\ ~ In CR s /\ ~ In LF s /\ ~ In COLON s.
Proof.
  rewrite forallb_forall. intros H.
  repeat split; intros Hin; apply H in Hin; discriminate Hin.
Qed.

(** X4: a value without backslash, carriage return, line feed and
    colon is its own escaped form, and unescaping leaves it as it is. *)
Theorem plain_value_unchanged (s : jsstring) :
  forallb plain_unit s = true ->
  hdrValueEscape s = s /\ hdrValueUnEscape s = s.
Proof.
  intros H. apply plain_unit_spec in H as (Hb & Hr & Hn & Hc).
  unfold hdrValueEscape, hdrValueUnEscape. split.
  - rewrite (replace_char_absent BACKSLASH _ s) by assumption.
    rewrite (replace_char_absent CR _ s) by assumption.
    rewrite (replace_char_absent LF _ s) by assumption.
    now apply replace_char_absent.
  - rewrite (replace_pair_absent BACKSLASH LETTER_r _ s) by assumption.
    rewrite (replace_pair_absent BACKSLASH LETTER_n _ s) by assumption.
    rewrite (replace_pair_absent BACKSLASH LETTER_c _ s) by assumption.
    now apply replace_pair_absent.
Qed.

Lemma plain_value_unchanged_witness :
  forallb plain_unit (js "/queue/a b") = true /\
  hdrValueEscape (js "/queue/a b") = js "/queue/a b" /\
  hdrValueUnEscape (js "/queue/a b") = js "/queue/a b".
Proof.
  split; [reflexivity|].
  apply (plain_value_unchanged (js "/queue/a b")). reflexivity.
Defined.

Lemma escape_unit_length (c : code_unit) :
  (1 <= length (escape_unit c) <= 2)%nat.
Proof.
  unfold escape_unit.
  destruct (c =? BACKSLASH), (c =? CR), (c =? LF), (c =? COLON); cbn; lia.
Qed.

Lemma replace_pair_cons2 (x y : code_unit) (rep : jsstring) (a b : code_unit)
  (u : jsstring) :
  replace_pair x y rep (a :: b :: u) =
  if (a =? x) && (b =? y) then rep ++ replace_pair x y rep u
  else a :: replace_pair x y rep (b :: u).
Proof. reflexivity. Qed.

Lemma replace_pair_length (x y r : code_unit) (s : jsstring) :
  (length (replace_pair x y [r] s) <= length s)%nat.
Proof.
  assert (H : forall n s, (length s <= n)%nat ->
            (length (replace_pair x y [r] s) <= length s)%nat).
  { clear s. induction n as [|n IH]; intros s Hn.
    - destruct s; [cbn; lia | simpl in Hn; lia].
    - destruct s as [|a [|b u]]; [cbn; lia | cbn; lia |].
      rewrite replace_pair_cons2. cbn [length] in Hn.
      destruct ((a =? x) && (b =? y)).
      + cbn [app length]. specialize (IH u ltac:(lia)). lia.
      + specialize (IH (b :: u) ltac:(cbn [length]; lia)).
        cbn [length] in *. lia. }
  now apply (H (length s)).
Qed.

(** X5: escaping never shortens a value and at most doubles its
    length; unescaping never lengthens a text. *)
Theorem escape_length_bounds (s : jsstring) :
  (length s <= length (hdrValueEscape s) <= 2 * length s)%nat /\
  (length (hdrValueUnEscape s) <= length s)%nat.
Proof.
  split.
  - rewrite hdrValueEscape_flat_map.
    induction s as [|c s IH]; [cbn; lia|].
    cbn [flat_map]. rewrite length_app. cbn [length].
    pose proof (escape_unit_length c). lia.
  - unfold hdrValueUnEscape.
    pose proof (replace_pair_length BACKSLASH LETTER_r CR s) as H1.
    pose proof (replace_pair_length BACKSLASH LETTER_n LF
                  (replace_pair BACKSLASH LETTER_r [CR] s)) as H2.
    pose proof (replace_pair_length BACKSLASH LETTER_c COLON
                  (replace_pair BACKSLASH LETTER_n [LF]
                     (replace_pair BACKSLASH LETTER_r [CR] s))) as H3.
    pose proof (replace_pair_length BACKSLASH BACKSLASH BACKSLASH
                  (replace_pair BACKSLASH LETTER_c [COLON]
                     (replace_pair BACKSLASH LETTER_n [LF]
                        (replace_pair BACKSLASH LETTER_r [CR] s)))) as H4.
    lia.
Qed.

(** ** Trimming and decoding *)

Lemma drop_spaces_idempotent (s : jsstring) :
  drop_spaces (drop_spaces s) = drop_spaces s.
Proof.
  induction s as [|a s IH]; [reflexivity|]. cbn [drop_spaces].
  destruct (is_space a) eqn:E; [assumption|]. cbn [drop_spaces]. now rewrite E.
Qed.

Lemma trim_last (s : jsstring) (c : code_unit) :
  hd_error (rev (trim s)) = Some c -> is_space c = false.
Proof.
  unfold trim. rewrite rev_involutive. apply drop_spaces_head.
Qed.

Lemma trim_idempotent (s : jsstring) : trim (trim s) = trim s.
Proof.
  unfold trim. destruct (drop_spaces s) as [|a t] eqn:E; [reflexivity|].
  assert (Ha : is_space a = false) by (apply (drop_spaces_head s); now rewrite E).
  cbn [rev]. rewrite drop_spaces_last by assumption.
  rewrite rev_app_distr. cbn [rev app drop_spaces]. rewrite Ha.
  change (a :: rev (drop_spaces (rev t))) with ([a] ++ rev (drop_spaces (rev t))).
  rewrite rev_app_distr, rev_involutive. cbn [rev app].
  rewrite drop_spaces_last by assumption.
  rewrite drop_spaces_idempotent, rev_app_distr. reflexivity.
Qed.

(** X6: trimming a header name or value twice is trimming it once,
    and a trimmed text neither starts nor ends with white space. *)
Theorem trim_trimmed (s : jsstring) :
  trim (trim s) = trim s /\
  match hd_error (trim s) with
  | Some c => is_space c = false
  | None => True
  end /\
  match hd_error (rev (trim s)) with
  | Some c => is_space c = false
  | None => True
  end.
Proof.
  split; [apply trim_idempotent|split].
  - destruct (hd_error (trim s)) as [c|] eqn:E; [|exact I]. now apply (trim_head s).
  - destruct (hd_error (rev (trim s))) as [c|] eqn:E; [|exact I]. now apply (trim_last s).
Qed.

Lemma obj_keys_get (k : jsstring) (o : obj) :
  In k (Object_keys o) <-> obj_get k o <> None.
Proof.
  split.
  - intros Hin G. apply obj_get_None_keys in G. contradiction.
  - destruct (obj_get k o) as [v|] eqn:G; [|congruence]. intros _.
    apply obj_get_Some_In in G. change k with (fst (k, v)). now apply in_map.
Qed.

Lemma decoded_headers_keys cmd esc lines (k : jsstring) :
  In k (Object_keys (decoded_headers cmd esc lines)) <->
  k <> PROTO /\ exists header, In header lines /\ trim (fst header) = k.
Proof.
  rewrite obj_keys_get. split.
  - intros G. split.
    + intros ->. now rewrite decoded_headers_no_PROTO in G.
    + destruct (obj_get k (decoded_headers cmd esc lines)) as [v|] eqn:G';
        [|congruence].
      apply decoded_headers_value in G' as (header & Hin & Hk & _). eauto.
  - intros (Hp & header & Hh & Hk). rewrite decoded_headers_get by assumption.
    destruct (find (fun header => str_eqb (trim (fst header)) k) lines)
      as [x|] eqn:F; [discriminate|].
    pose proof (find_none _ _ F header Hh) as Hn. cbv beta in Hn.
    rewrite Hk, str_eqb_refl in Hn. discriminate.
Qed.

Lemma fromRawFrame_keys (rawFrame : RawFrame) (esc : bool) (k : jsstring) :
  In k (Object_keys (headers (fst (fromRawFrame rawFrame esc)))) <->
  In k (Object_keys (decoded_headers (raw_command rawFrame) esc (raw_headers rawFrame))).
Proof. now rewrite !obj_keys_get, fromRawFrame_get. Qed.

(** X7: the names of the decoded headers are the trimmed names of the
    header lines other than [__proto__], no more and no fewer; each
    occurs once and none starts or ends with white space. *)
Theorem fromRawFrame_names (rawFrame : RawFrame) (esc : bool) :
  (forall k, In k (Object_keys (headers (fst (fromRawFrame rawFrame esc)))) <->
             k <> PROTO /\
             exists header, In header (raw_headers rawFrame) /\ trim (fst header) = k) /\
  NoDup (Object_keys (headers (fst (fromRawFrame rawFrame esc)))) /\
  Forall (fun k => trim k = k) (Object_keys (headers (fst (fromRawFrame rawFrame esc)))).
Proof.
  split; [|split].
  - intros k. rewrite fromRawFrame_keys. apply decoded_headers_keys.
  - rewrite fromRawFrame_headers. apply Object_assign_NoDup. constructor.
  - apply Forall_forall. intros k Hin. apply fromRawFrame_keys in Hin.
    apply decoded_headers_keys in Hin as (_ & header & _ & <-). apply trim_idempotent.
Qed.

Lemma decoded_headers_distinct cmd esc lines :
  NoDup (map (fun header => trim (fst header)) lines) ->
  Forall plain_name (map (fun header => trim (fst header)) lines) ->
  decoded_headers cmd esc lines =
  rev (map (fun header => (trim (fst header), header_value cmd esc header)) lines).
Proof.
  induction lines as [|h lines IH]; [reflexivity|].
  intros Hnd Hpl. inversion Hnd as [|? ? Hnotin Hnd']; subst.
  inversion Hpl as [|? ? [Hp Hi] Hpl']; subst.
  cbn [decoded_headers fold_right map rev]. fold (decoded_headers cmd esc lines).
  unfold fromRawFrame_step. rewrite obj_set_fresh; try assumption.
  - now rewrite IH.
  - apply obj_get_None_keys. intros Hin.
    apply decoded_headers_keys in Hin as (_ & header & Hh & Hk).
    apply Hnotin. rewrite <- Hk.
    now apply (in_map (fun header => trim (fst header))).
Qed.

(** X8: when the trimmed names of the header lines are all different
    and none of them is an array index or [__proto__], the decoded
    headers are the lines in reverse order, each with its trimmed name
    and its decoded value. *)
Theorem fromRawFrame_reverses_order (rawFrame : RawFrame) (esc : bool) :
  NoDup (map (fun header => trim (fst header)) (raw_headers rawFrame)) ->
  Forall plain_name (map (fun header => trim (fst header)) (raw_headers rawFrame)) ->
  headers (fst (fromRawFrame rawFrame esc)) =
  rev (map (fun header =>
              (trim (fst header), header_value (raw_command rawFrame) esc header))
           (raw_headers rawFrame)).
Proof.
  intros Hnd Hpl. rewrite fromRawFrame_headers, decoded_headers_distinct by assumption.
  apply Object_assign_copy; unfold Object_keys; rewrite map_rev, map_map;
    cbn [fst]; [now apply NoDup_rev | now apply Forall_rev].
Qed.

Lemma fromRawFrame_reverses_order_witness :
  headers (fst (fromRawFrame three_headers false))
  = [(js "c", js "3"); (js "b", js "2"); (js "a", js "1")].
Proof.
  refine (fromRawFrame_reverses_order three_headers false _ _).
  - repeat constructor; cbn; intuition discriminate.
  - repeat constructor; discriminate.
Defined.

Lemma decoded_headers_drop_PROTO cmd esc lines :
  decoded_headers cmd esc
    (filter (fun header => negb (str_eqb (trim (fst header)) PROTO)) lines)
  = decoded_headers cmd esc lines.
Proof.
  induction lines as [|h lines IH]; [reflexivity|].
  cbn [filter]. destruct (str_eqb (trim (fst h)) PROTO) eqn:E; cbn [negb].
  - rewrite IH. cbn [decoded_headers fold_right].
    fold (decoded_headers cmd esc lines). unfold fromRawFrame_step.
    apply str_eqb_eq in E. rewrite E. symmetry.
    apply obj_set_PROTO, decoded_headers_no_PROTO.
  - cbn [decoded_headers fold_right]. fold (decoded_headers cmd esc lines).
    fold (decoded_headers cmd esc
            (filter (fun header => negb (str_eqb (trim (fst header)) PROTO)) lines)).
    now rewrite IH.
Qed.

(** X26: no frame has a header named [__proto__]: neither the
    constructor nor [fromRawFrame] stores one, and the frame decoded
    from a raw frame is the frame decoded from it without its header
    lines of that name. *)
Theorem PROTO_is_never_a_header (params : FrameParams) (rawFrame : RawFrame) (esc : bool) :
  obj_get PROTO (headers (new_Frame params)) = None /\
  ~ In PROTO (Object_keys (headers (new_Frame params))) /\
  ~ In PROTO (Object_keys (headers (fst (fromRawFrame rawFrame esc)))) /\
  fst (fromRawFrame (without_PROTO_lines rawFrame) esc) = fst (fromRawFrame rawFrame esc).
Proof.
  assert (H : forall p, obj_get PROTO (headers (new_Frame p)) = None).
  { intros p. unfold new_Frame.
    destruct (truthy (p_binaryBody p)); cbn [headers];
      now apply Object_assign_no_PROTO. }
  split; [apply H|]. split; [apply obj_get_None_keys, H|]. split.
  - apply obj_get_None_keys. unfold fromRawFrame. cbn [fst]. apply H.
  - unfold fromRawFrame, without_PROTO_lines.
    cbn [fst reverse_headers raw_headers raw_command raw_binaryBody].
    rewrite !fold_left_rev.
    fold (decoded_headers (raw_command rawFrame) esc (raw_headers rawFrame)).
    fold (decoded_headers (raw_command rawFrame) esc
            (filter (fun header => negb (str_eqb (trim (fst header)) PROTO))
               (raw_headers rawFrame))).
    now rewrite decoded_headers_drop_PROTO.
Qed.

(** X27: the header names of every frame made by the constructor or
    by [fromRawFrame] stand in the order of [Object.keys]: the names
    that are array indices first, in ascending order, then the other
    names. *)
Theorem header_names_ordered (params : FrameParams) (rawFrame : RawFrame) (esc : bool) :
  names_ordered (Object_keys (headers (new_Frame params))) /\
  names_ordered (Object_keys (headers (fst (fromRawFrame rawFrame esc)))).
Proof.
  assert (H : forall p, names_ordered (Object_keys (headers (new_Frame p)))).
  { intros p. unfold new_Frame.
    destruct (truthy (p_binaryBody p)); cbn [headers];
      apply Object_assign_ordered; exact I. }
  split; [apply H|]. unfold fromRawFrame. cbn [fst]. apply H.
Qed.

(** An array index among the names is listed first, wherever its line
    stands: here the lines are [10:x] and [b:y]. *)
Lemma fromRawFrame_index_name_first :
  Object_keys (headers (fst (fromRawFrame
    {| raw_command := js "MESSAGE";
       raw_headers := [(js "10", js "x"); (js "b", js "y")];
       raw_binaryBody := Some [] |} false)))
  = [js "10"; js "b"].
Proof. reflexivity. Qed.

(** X9: a raw frame that is decoded a second time has its header
    lines in reversed order by then, so the second decoding binds a
    repeated name (other than [__proto__]) to the value of its last
    line, not of its first. *)
Theorem fromRawFrame_twice_last_wins (rawFrame : RawFrame) (esc : bool)
  (k : jsstring) (header : jsstring * jsstring) :
  k <> PROTO ->
  find (fun h => str_eqb (trim (fst h)) k) (rev (raw_headers rawFrame)) = Some header ->
  obj_get k (headers (fst (fromRawFrame (snd (fromRawFrame rawFrame esc)) esc))) =
  Some (header_value (raw_command rawFrame) esc header).
Proof.
  intros Hk Hfind. rewrite fromRawFrame_get, decoded_headers_get by assumption.
  cbn [fromRawFrame snd reverse_headers raw_headers raw_command].
  now rewrite Hfind.
Qed.

Lemma fromRawFrame_twice_last_wins_witness :
  obj_get (js "a") (headers (fst (fromRawFrame repeated_header false))) = Some (js "1") /\
  obj_get (js "a")
    (headers (fst (fromRawFrame (snd (fromRawFrame repeated_header false)) false)))
  = Some (js "2").
Proof.
  split; [reflexivity|].
  exact (fromRawFrame_twice_last_wins repeated_header false (js "a") (js "a", js "2")
           ltac:(discriminate) eq_refl).
Defined.

(** ** Construction and the two views of the body *)

(** X10: under every name other than [__proto__] the headers of a
    constructed frame hold what the caller's headers hold, and they
    hold nothing under [__proto__]; their names are distinct; when no
    name of the caller is an array index or [__proto__], they are the
    caller's headers in the caller's order. The constructor takes over
    the command, and absent flags are [false]. *)
Theorem new_Frame_headers_of_params (params : FrameParams) :
  NoDup (Object_keys (or_default (p_headers params) [])) ->
  (forall k, obj_get k (headers (new_Frame params))
             = if str_eqb k PROTO then None
               else obj_get k (or_default (p_headers params) [])) /\
  NoDup (Object_keys (headers (new_Frame params))) /\
  (Forall plain_name (Object_keys (or_default (p_headers params) [])) ->
   headers (new_Frame params) = or_default (p_headers params) []) /\
  command (new_Frame params) = p_command params /\
  escapeHeaderValues (new_Frame params)
  = or_default (p_escapeHeaderValues params) false /\
  skipContentLengthHeader (new_Frame params)
  = or_default (p_skipContentLengthHeader params) false.
Proof.
  intros Hnd.
  assert (Hh : headers (new_Frame params)
               = Object_assign [] (or_default (p_headers params) [])).
  { unfold new_Frame. now destruct (truthy (p_binaryBody params)). }
  split; [|split; [|split]].
  - intros k. rewrite Hh. now apply Object_assign_new_get.
  - apply new_Frame_headers_NoDup.
  - intros Hpl. rewrite Hh. now apply Object_assign_copy.
  - unfold new_Frame. destruct (truthy (p_binaryBody params)); auto.
Qed.

(** The headers of the sample message, and a caller's object that has
    an own property [__proto__] next to [destination]. *)
Lemma new_Frame_headers_of_params_witness :
  headers (new_Frame sample_message)
  = [(js "destination", js "/queue/a:b"); (js "note", js "x\y")] /\
  obj_get PROTO (headers (new_Frame own_proto)) = None /\
  obj_get (js "destination") (headers (new_Frame own_proto)) = Some (js "/queue/a").
Proof.
  split; [|split].
  - refine (proj1 (proj2 (proj2 (new_Frame_headers_of_params sample_message _))) _).
    + repeat constructor; cbn; intuition discriminate.
    + repeat constructor; discriminate.
  - refine (proj1 (new_Frame_headers_of_params own_proto _) PROTO).
    repeat constructor; cbn; intuition discriminate.
  - refine (proj1 (new_Frame_headers_of_params own_proto _) (js "destination")).
    repeat constructor; cbn; intuition discriminate.
Defined.

(** X11: the getters and the serializing methods keep the invariant
    of a frame: a binary frame holds its bytes, a text frame holds its
    text, and bytes cached for a text are the encoding of that text. *)
Theorem methods_keep_Frame_inv (this : Frame) :
  Frame_inv this ->
  Frame_inv (snd (body this)) /\ Frame_inv (snd (binaryBody this)) /\
  Frame_inv (snd (bodyLength this)) /\
  Frame_inv (snd (serializeCmdAndHeaders this)) /\ Frame_inv (snd (serialize this)).
Proof.
  intros Hinv.
  assert (Hser : Frame_inv (snd (serializeCmdAndHeaders this))).
  { unfold serializeCmdAndHeaders, bind, ret.
    pose proof (serializeLines_state this Hinv) as Hst.
    destruct (serializeLines this) as [lines this']. cbn [snd] in *. apply Hst. }
  assert (Hser' : Frame_inv (snd (serialize this))).
  { unfold serialize, bind, ret, this_.
    destruct (serializeCmdAndHeaders this) as [text this']. cbn [snd] in *.
    now destruct (isBinaryBody this'). }
  repeat split; try assumption.
  - destruct this as [cmd h b bb bin esc skip].
    unfold Frame_inv in *. cbn [isBinaryBody _binaryBody _body] in Hinv.
    destruct bin, b as [[|c t]|]; run_methods; exact Hinv.
  - frame_cases this Hinv; unfold Frame_inv; run_methods; eauto.
  - frame_cases this Hinv; unfold Frame_inv; run_methods; eauto.
Qed.

Lemma methods_keep_Frame_inv_witness :
  Frame_inv hello_frame /\ Frame_inv (snd (serialize hello_frame)).
Proof.
  split; [apply new_Frame_inv|].
  apply (methods_keep_Frame_inv hello_frame). apply new_Frame_inv.
Defined.

(** X12: the getters are idempotent: a second access returns what the
    first returned and leaves the frame as the first left it. *)
Theorem getters_idempotent (this : Frame) :
  body (snd (body this)) = body this /\
  binaryBody (snd (binaryBody this)) = binaryBody this /\
  bodyLength (snd (bodyLength this)) = bodyLength this.
Proof.
  destruct this as [cmd h b bb bin esc skip]. repeat split.
  - destruct bin, b as [[|c t]|], bb as [x|]; run_methods; try reflexivity;
      match goal with
      | |- context [TextDecoder_decode ?a] =>
          let E := fresh "E" in
          destruct (TextDecoder_decode a) eqn:E; run_methods; rewrite ?E
      end; reflexivity.
  - destruct bin, bb as [x|]; reflexivity.
  - destruct bin, bb as [x|]; reflexivity.
Qed.

(** X13: the bytes that the [binaryBody] getter gives for a text
    frame, put into a frame of their own, read back through the [body]
    getter as the same text, when the text is well-formed UTF-16 and
    does not start with a byte order mark. *)
Theorem body_of_bytes_of_text (cmd : jsstring) (h : obj) (esc skip : bool)
  (text : jsstring) :
  well_formed_utf16 text = true -> hd_error text <> Some 0xFEFF ->
  fst (body (bytes_frame cmd h
              (fst (binaryBody (text_frame cmd h (Some text) esc skip))) esc skip))
  = Some text.
Proof.
  intros Hwf Hbom. unfold bytes_frame, text_frame, new_Frame, params_of.
  cbn [p_binaryBody truthy p_body or_default].
  run_methods. cbn [p_binaryBody truthy].
  run_methods.
  now rewrite TextDecoder_decode_TextEncoder_encode.
Qed.

Lemma body_of_bytes_of_text_witness :
  well_formed_utf16 hello = true /\
  fst (body (bytes_frame (js "SEND") []
              (fst (binaryBody (text_frame (js "SEND") [] (Some hello) false false)))
              false false))
  = Some hello.
Proof.
  split; [reflexivity|].
  apply (body_of_bytes_of_text (js "SEND") [] false false hello);
    [reflexivity | discriminate].
Defined.

(** X14: a byte order mark at the start of a text does not survive the
    same way: what is read back is the text without it. *)
Theorem body_of_bytes_drops_bom (cmd : jsstring) (h : obj) (esc skip : bool)
  (text : jsstring) :
  well_formed_utf16 text = true ->
  fst (body (bytes_frame cmd h
              (fst (binaryBody (text_frame cmd h (Some (0xFEFF :: text)) esc skip)))
              esc skip))
  = Some text.
Proof.
  intros Hwf. destruct (USVString_well_formed text Hwf) as (Hsc & Hspell & _).
  unfold bytes_frame, text_frame, new_Frame, params_of.
  cbn [p_binaryBody truthy p_body or_default].
  run_methods. cbn [p_binaryBody truthy].
  run_methods.
  unfold TextDecoder_decode, TextEncoder_encode.
  change (USVString (0xFEFF :: text)) with (0xFEFF :: USVString text).
  rewrite utf8_decode_scalars by (constructor; [reflexivity | assumption]).
  cbn [strip_bom]. change (0xFEFF =? 0xFEFF) with true. cbv iota.
  now rewrite Hspell.
Qed.

Lemma body_of_bytes_drops_bom_witness :
  well_formed_utf16 hello = true /\
  fst (body (bytes_frame (js "SEND") []
              (fst (binaryBody
                      (text_frame (js "SEND") [] (Some (0xFEFF :: hello)) false false)))
              false false))
  = Some hello.
Proof.
  split; [reflexivity|].
  apply (body_of_bytes_drops_bom (js "SEND") [] false false hello). reflexivity.
Defined.

(** ** Lengths *)

Lemma utf8_bytes_length (c : Z) :
  (1 <= length (utf8_bytes c) <= 4)%nat /\
  (0x10000 <= c -> length (utf8_bytes c) = 4%nat).
Proof.
  unfold utf8_bytes.
  destruct (Z.ltb_spec c 0x80); [cbn [length]; split; lia|].
  destruct (Z.ltb_spec c 0x800); [cbn [length]; split; lia|].
  destruct (Z.ltb_spec c 0x10000); cbn [length]; split; lia.
Qed.

(** The encoding has at least as many bytes as the text has
    characters. *)
Lemma TextEncoder_encode_length (s : jsstring) :
  (length s <= length (TextEncoder_encode s))%nat.
Proof.
  unfold TextEncoder_encode.
  assert (H : forall n s, (length s <= n)%nat ->
            (length s <= length (flat_map utf8_bytes (USVString s)))%nat).
  { clear s. induction n as [|n IH]; intros s Hn.
    - destruct s; [cbn; lia | simpl in Hn; lia].
    - destruct s as [|c s]; [cbn; lia|].
      cbn [length] in Hn. cbn [USVString].
      destruct (is_high_surrogate c) eqn:Ehi.
      + destruct s as [|d u].
        * cbn [flat_map length]. rewrite length_app.
          pose proof (utf8_bytes_length 0xFFFD). lia.
        * cbn [length] in Hn. destruct (is_low_surrogate d) eqn:Elo.
          -- cbn [flat_map length]. rewrite length_app.
             pose proof (proj1 (surrogate_pair_range c d Ehi Elo)) as Hr.
             pose proof (proj2 (utf8_bytes_length (surrogate_pair c d))) as H4.
             specialize (IH u ltac:(lia)). lia.
          -- cbn [flat_map]. rewrite length_app.
             pose proof (utf8_bytes_length 0xFFFD).
             specialize (IH (d :: u) ltac:(cbn [length]; lia)).
             cbn [length] in *. lia.
      + destruct (is_low_surrogate c); cbn [flat_map length]; rewrite length_app;
          specialize (IH s ltac:(lia)).
        * pose proof (utf8_bytes_length 0xFFFD). lia.
        * pose proof (utf8_bytes_length c). lia. }
  now apply (H (length s)).
Qed.

Lemma length_eqb_TextEncoder_encode (s : jsstring) :
  (length (TextEncoder_encode s) =? 0)%nat = (length s =? 0)%nat.
Proof.
  destruct s as [|c s]; [reflexivity|].
  pose proof (TextEncoder_encode_length (c :: s)) as H. cbn [length] in *.
  destruct (length (TextEncoder_encode (c :: s))); [lia | reflexivity].
Qed.

(** X15: a frame fresh from the constructor has an empty body, in the
    sense of [isBodyEmpty], exactly when its bytes are none or, for a
    text frame, when its text has no character. *)
Theorem isBodyEmpty_new_Frame (params : FrameParams) :
  fst (isBodyEmpty (new_Frame params)) =
  match p_binaryBody params with
  | Some b => (length b =? 0)%nat
  | None => (length (or_default (p_body params) []) =? 0)%nat
  end.
Proof.
  unfold new_Frame. destruct (p_binaryBody params) as [b|]; cbn [truthy].
  - reflexivity.
  - run_methods. apply length_eqb_TextEncoder_encode.
Qed.

(** X16: [sizeOfUTF8] of a text is the [bodyLength] of a text frame
    with that body, the absent and the empty text counting 0, and it is
    never less than the number of characters. *)
Theorem sizeOfUTF8_is_bodyLength (cmd : jsstring) (h : obj) (esc skip : bool)
  (s : option jsstring) :
  sizeOfUTF8 s = fst (bodyLength (text_frame cmd h s esc skip)) /\
  (length (or_default s []) <= sizeOfUTF8 s)%nat.
Proof.
  unfold sizeOfUTF8, text_frame, new_Frame, params_of.
  cbn [p_binaryBody truthy p_body]. split.
  - destruct s as [[|c t]|]; reflexivity.
  - destruct s as [[|c t]|]; cbn [truthy_str or_default length]; try lia.
    apply (TextEncoder_encode_length (c :: t)).
Qed.

(** ** Buffers and marshalling *)

(** X17: [toUnit8Array] never runs out of the array it allocates: it
    returns the bytes of the header block, then the body, then one
    zero byte, and nothing else. *)
Theorem toUnit8Array_layout (cmdAndHeaders : jsstring) (binaryBody : bytes) :
  toUnit8Array cmdAndHeaders binaryBody
  = Some (TextEncoder_encode cmdAndHeaders ++ binaryBody ++ [0]) /\
  option_map (@length Z) (toUnit8Array cmdAndHeaders binaryBody)
  = Some (length (TextEncoder_encode cmdAndHeaders) + length binaryBody + 1)%nat.
Proof.
  rewrite toUnit8Array_eq. split; [reflexivity|].
  cbn [option_map]. rewrite !length_app. cbn [length]. f_equal. lia.
Qed.

(** X18: [marshall] never throws.  For parameters without [binaryBody]
    it returns the text of [toString], the body and a null character;
    for parameters with [binaryBody] it returns a buffer with the bytes
    of that text, the given bytes and a zero byte. *)
Theorem marshall_total (params : FrameParams) :
  marshall params =
  match p_binaryBody params with
  | None =>
      Some (Text (fst (toString (new_Frame params))
                  ++ or_default (p_body params) [] ++ [NULL]))
  | Some b =>
      Some (Buffer (TextEncoder_encode (fst (toString (new_Frame params)))
                    ++ b ++ [0]))
  end.
Proof.
  unfold marshall, toString.
  rewrite serialize_eq by apply new_Frame_inv. cbv zeta.
  rewrite serializeCmdAndHeaders_eq.
  generalize (join LF (fst (serializeLines (new_Frame params)))). intros block.
  unfold new_Frame. destruct (p_binaryBody params) as [b|];
    cbn [truthy isBinaryBody _binaryBody _body or_default].
  - do 2 f_equal.
    change (block ++ [LF; LF]) with (block ++ LF :: [LF]).
    rewrite TextEncoder_encode_snoc by (unfold LF; lia).
    change [LF] with ([] ++ LF :: []) at 1.
    rewrite TextEncoder_encode_snoc by (unfold LF; lia).
    rewrite <- !app_assoc. reflexivity.
  - do 2 f_equal. now rewrite <- app_assoc.
Qed.

(** ** What serialization does to the frame *)

Lemma serialize_state (this : Frame) :
  Frame_inv this -> snd (serialize this) = after_serialize this.
Proof.
  intros Hinv. frame_cases this Hinv; destruct skip; run_methods.
  all: try destruct (length (TextEncoder_encode s) =? 0)%nat.
  all: reflexivity.
Qed.

Lemma obj_delete_idempotent (k : jsstring) (o : obj) :
  obj_delete k (obj_delete k o) = obj_delete k o.
Proof.
  unfold obj_delete. induction o as [|e o IH]; [reflexivity|].
  cbn [filter]. destruct (negb (str_eqb (fst e) k)) eqn:E; [|assumption].
  cbn [filter]. now rewrite E, IH.
Qed.

Lemma after_serialize_idempotent (this : Frame) :
  after_serialize (after_serialize this) = after_serialize this.
Proof.
  destruct this as [cmd h b bb bin esc skip].
  unfold after_serialize, without_skipped, set_binaryBody, set_headers.
  destruct skip, bin; cbn [command headers _body _binaryBody isBinaryBody
    escapeHeaderValues skipContentLengthHeader];
    rewrite ?obj_delete_idempotent; reflexivity.
Qed.

Lemma after_serialize_fields (this : Frame) :
  command (after_serialize this) = command this /\
  headers (after_serialize this) = headers (without_skipped this) /\
  _body (after_serialize this) = _body this /\
  isBinaryBody (after_serialize this) = isBinaryBody this /\
  escapeHeaderValues (after_serialize this) = escapeHeaderValues this /\
  skipContentLengthHeader (after_serialize this) = skipContentLengthHeader this /\
  byte_length (after_serialize this) = byte_length this /\
  (isBinaryBody this = true -> _binaryBody (after_serialize this) = _binaryBody this).
Proof.
  destruct this as [cmd h b bb bin esc skip].
  unfold after_serialize, without_skipped, byte_length.
  destruct skip, bin; cbn; repeat split; auto; discriminate.
Qed.

Lemma without_skipped_after_serialize (this : Frame) :
  headers (without_skipped (after_serialize this)) = headers (without_skipped this).
Proof.
  destruct this as [cmd h b bb bin esc skip].
  unfold after_serialize, without_skipped.
  destruct skip; cbn [skipContentLengthHeader set_binaryBody set_headers headers];
    rewrite ?obj_delete_idempotent; reflexivity.
Qed.

Lemma without_skipped_fields (this : Frame) :
  command (without_skipped this) = command this /\
  escapeHeaderValues (without_skipped this) = escapeHeaderValues this.
Proof. unfold without_skipped. now destruct (skipContentLengthHeader this). Qed.

Lemma methods_keep_Frame_inv_aux (this : Frame) :
  Frame_inv this -> Frame_inv (snd (serialize this)).
Proof.
  intros Hinv. unfold serialize, serializeCmdAndHeaders, bind, ret, this_.
  pose proof (serializeLines_state this Hinv) as Hst.
  destruct (serializeLines this) as [lines this']. cbn [snd] in *.
  destruct Hst as [Hinv' _]. now destruct (isBinaryBody this').
Qed.

(** X19: serializing a frame a second time gives the same output as
    the first time and changes nothing more in the frame. *)
Theorem serialize_twice (this : Frame) :
  Frame_inv this ->
  serialize (snd (serialize this)) = serialize this.
Proof.
  intros Hinv.
  assert (Hinv' : Frame_inv (after_serialize this)).
  { rewrite <- serialize_state by assumption. now apply methods_keep_Frame_inv_aux. }
  destruct (after_serialize_fields this)
    as (Hcmd & Hh & Hbody & Hbin & Hesc & Hskip & Hlen & Hbytes).
  pose proof (serialize_state this Hinv) as Hs.
  apply injective_projections; rewrite Hs;
    [|rewrite serialize_state by assumption; apply after_serialize_idempotent].
  rewrite !serialize_eq by assumption. cbv zeta.
  rewrite !serializeLines_eq by assumption.
  rewrite without_skipped_after_serialize, Hcmd, Hbin, Hskip, Hlen, Hbody.
  assert (Hmap :
    map (header_line (without_skipped (after_serialize this)))
        (Object_keys (headers (without_skipped this)))
    = map (header_line (without_skipped this))
        (Object_keys (headers (without_skipped this)))).
  { apply map_ext. intros name. apply header_line_ext.
    - rewrite (proj1 (without_skipped_fields _)), Hcmd.
      symmetry. apply without_skipped_fields.
    - apply without_skipped_after_serialize.
    - rewrite (proj2 (without_skipped_fields _)), Hesc.
      symmetry. apply without_skipped_fields. }
  rewrite Hmap.
  destruct (isBinaryBody this) eqn:E; [now rewrite Hbytes | reflexivity].
Qed.

Lemma serialize_twice_witness :
  Frame_inv skipping_frame /\
  serialize (snd (serialize skipping_frame)) = serialize skipping_frame.
Proof.
  split; [apply new_Frame_inv|].
  apply (serialize_twice skipping_frame). apply new_Frame_inv.
Defined.

(** X20: [serialize] leaves the command, the body, the kind of the
    body and the two flags of the frame as they were.  It leaves the
    headers as they were too when the frame does not skip
    [content-length]; when the frame skips it, the headers lose that
    entry and keep every other one. *)
Theorem serialize_footprint (this : Frame) :
  Frame_inv this ->
  command (snd (serialize this)) = command this /\
  _body (snd (serialize this)) = _body this /\
  isBinaryBody (snd (serialize this)) = isBinaryBody this /\
  escapeHeaderValues (snd (serialize this)) = escapeHeaderValues this /\
  skipContentLengthHeader (snd (serialize this)) = skipContentLengthHeader this /\
  (if skipContentLengthHeader this
   then headers (snd (serialize this)) = obj_delete content_length (headers this)
   else headers (snd (serialize this)) = headers this) /\
  (forall k, k <> content_length ->
     obj_get k (headers (snd (serialize this))) = obj_get k (headers this)).
Proof.
  intros Hinv. rewrite serialize_state by assumption.
  destruct (after_serialize_fields this)
    as (Hcmd & Hh & Hbody & Hbin & Hesc & Hskip & _ & _).
  repeat split; try assumption.
  - rewrite Hh. unfold without_skipped.
    now destruct (skipContentLengthHeader this).
  - intros k Hk. rewrite Hh. unfold without_skipped.
    destruct (skipContentLengthHeader this); [|reflexivity].
    cbn [headers set_headers]. apply obj_get_delete_other. congruence.
Qed.

Lemma serialize_footprint_witness :
  Frame_inv skipping_frame /\
  obj_get content_length (headers skipping_frame) = Some (js "77") /\
  headers (snd (serialize skipping_frame)) = [].
Proof.
  split; [apply new_Frame_inv|]. split; [reflexivity|].
  exact (proj1 (proj2 (proj2 (proj2 (proj2 (proj2
    (serialize_footprint skipping_frame (new_Frame_inv _)))))))).
Defined.

(** X21: when a frame that does not skip [content-length] carries a
    [content-length] header of the caller and has a body to announce,
    the caller's line is among the header lines and the computed line
    comes after all of them: both are sent. *)
Theorem caller_content_length_is_kept (this : Frame) (v : jsstring) :
  Frame_inv this ->
  skipContentLengthHeader this = false ->
  obj_get content_length (headers this) = Some v ->
  isBinaryBody this || negb (byte_length this =? 0)%nat = true ->
  In (header_line this content_length) (removelast (fst (serializeLines this))) /\
  last (fst (serializeLines this)) [] = content_length_line (byte_length this).
Proof.
  intros Hinv Hskip Hget Hemit.
  rewrite serializeLines_eq by assumption.
  unfold without_skipped. rewrite Hskip. cbn [negb]. rewrite andb_true_r, Hemit.
  rewrite !app_assoc. rewrite removelast_last, last_last. split; [|reflexivity].
  apply in_or_app. right. apply in_map.
  apply obj_get_Some_In in Hget.
  change content_length with (fst (content_length, v)) at 1. now apply in_map.
Qed.

Lemma caller_content_length_is_kept_witness :
  fst (serializeLines stale_frame)
  = [js "SEND"; js "content-length:77"; js "content-length:2"] /\
  In (js "content-length:77") (removelast (fst (serializeLines stale_frame))) /\
  last (fst (serializeLines stale_frame)) [] = js "content-length:2".
Proof.
  split; [reflexivity|].
  exact (caller_content_length_is_kept stale_frame (js "77") (new_Frame_inv _)
           eq_refl eq_refl eq_refl).
Defined.

(** X22: a frame decoded from a raw frame that has a body, serialized
    again, ends its header block with a [content-length] line that
    gives the number of bytes received, an empty body included. *)
Theorem decoded_frame_announces_length (rawFrame : RawFrame) (esc : bool) (b : bytes) :
  raw_binaryBody rawFrame = Some b ->
  last (fst (serializeLines (fst (fromRawFrame rawFrame esc)))) []
  = content_length_line (length b).
Proof.
  intros Hb. unfold fromRawFrame. cbn [fst].
  rewrite serializeLines_eq by apply new_Frame_inv.
  set (params := {| p_command := _ |}).
  assert (Hbin : isBinaryBody (new_Frame params) = true
                 /\ byte_length (new_Frame params) = length b).
  { unfold new_Frame, byte_length, params.
    cbn [p_binaryBody reverse_headers raw_binaryBody]. rewrite Hb. cbn. auto. }
  destruct Hbin as [-> ->]. cbn [orb].
  rewrite !app_assoc. apply last_last.
Qed.

Lemma decoded_frame_announces_length_witness :
  raw_binaryBody repeated_header = Some [] /\
  last (fst (serializeLines (fst (fromRawFrame repeated_header true)))) []
  = js "content-length:0".
Proof.
  split; [reflexivity|].
  exact (decoded_frame_announces_length repeated_header true [] eq_refl).
Defined.

(** X23: with escaping in force, the line of a header whose name has
    no line feed has none either, and it has one colon more than the
    name: a value cannot break its line nor add a separator. *)
Theorem escaped_header_line_is_one_line (this : Frame) (name : jsstring) :
  escapeHeaderValues this = true ->
  command this <> CONNECT -> command this <> CONNECTED ->
  ~ In LF name ->
  ~ In LF (header_line this name) /\
  count_occ Z.eq_dec (header_line this name) COLON
  = S (count_occ Z.eq_dec name COLON).
Proof.
  intros Hesc Hc1 Hc2 Hname. unfold header_line.
  rewrite Hesc, !str_eqb_neq by assumption. cbn [negb andb].
  set (value := hdrValueEscape _).
  assert (Hv : ~ In LF value /\ ~ In COLON value).
  { unfold value. rewrite hdrValueEscape_flat_map.
    split; intros Hin; apply in_flat_map in Hin as [c [_ Hin]];
      apply escape_unit_safe in Hin; intuition congruence. }
  destruct Hv as [Hlf Hcolon]. split.
  - intros Hin. apply in_app_or in Hin as [Hin|Hin]; [now apply Hname|].
    cbn [app In] in Hin. destruct Hin as [Hin|Hin]; [discriminate Hin | now apply Hlf].
  - rewrite !count_occ_app. cbn [count_occ].
    destruct (Z.eq_dec COLON COLON) as [_|Hne]; [|now elim Hne].
    apply (count_occ_not_In Z.eq_dec) in Hcolon. unfold jsstring, code_unit in *.
    rewrite Hcolon. lia.
Qed.

Lemma escaped_header_line_is_one_line_witness :
  obj_get (js "note") (headers multiline_value) = Some [120; LF; 121; COLON; 122] /\
  header_line multiline_value (js "note") = js "note:x\ny\cz" /\
  ~ In LF (header_line multiline_value (js "note")).
Proof.
  split; [reflexivity|]. split; [reflexivity|].
  refine (proj1 (escaped_header_line_is_one_line multiline_value (js "note")
                   eq_refl _ _ _)).
  - discriminate.
  - discriminate.
  - apply occurs_false. reflexivity.
Defined.

(** ** Headers across escaping and decoding *)

Lemma decoded_escaped_pairs_get (cmd : jsstring) (h : obj) (k : jsstring) :
  cmd <> CONNECT -> cmd <> CONNECTED ->
  forallb header_ok h = true ->
  obj_get k (decoded_headers cmd true (map escaped_pair h)) = obj_get k h.
Proof.
  intros Hc1 Hc2 Hok. destruct (str_eqb k PROTO) eqn:EP.
  { apply str_eqb_eq in EP. subst k.
    now rewrite decoded_headers_no_PROTO, header_ok_no_PROTO. }
  rewrite decoded_headers_get by (intros ->; now rewrite str_eqb_refl in EP).
  clear EP. induction h as [|[k' v'] h IH]; [reflexivity|].
  cbn [forallb] in Hok. apply andb_true_iff in Hok as [Hkv Hok].
  apply header_ok_spec in Hkv as (Htk & _ & _ & Htv & Hlook).
  cbn [map find escaped_pair fst snd obj_get]. rewrite Htk.
  destruct (str_eqb k' k).
  - cbn [option_map]. unfold header_value, escaped_pair. cbn [snd].
    rewrite !str_eqb_neq by assumption. cbn [negb andb].
    now rewrite Htv, hdrValueUnEscape_hdrValueEscape.
  - now apply IH.
Qed.

(** X24: headers whose names and escaped values have no white space
    at either end, whose names are other than [__proto__] and whose
    values have no backslash before [r], [n] or [c], come back from
    their escaped pairs: [fromRawFrame] with escaping on binds every
    name to the value it had. *)
Theorem headers_back_from_escaped_pairs (cmd : jsstring) (h : obj)
  (b : option bytes) (k : jsstring) :
  cmd <> CONNECT -> cmd <> CONNECTED ->
  forallb header_ok h = true ->
  obj_get k (headers (fst (fromRawFrame
    {| raw_command := cmd; raw_headers := map escaped_pair h; raw_binaryBody := b |}
    true)))
  = obj_get k h.
Proof.
  intros Hc1 Hc2 Hok. rewrite fromRawFrame_get. cbn [raw_command raw_headers].
  now apply decoded_escaped_pairs_get.
Qed.

Lemma headers_back_from_escaped_pairs_witness :
  forallb header_ok [(js "destination", js "/queue/a:b"); (js "note", js "x\y")] = true /\
  obj_get (js "destination") (headers (fst (fromRawFrame
    {| raw_command := js "SEND";
       raw_headers := [(js "destination", js "/queue/a\cb"); (js "note", js "x\\y")];
       raw_binaryBody := None |} true)))
  = Some (js "/queue/a:b").
Proof.
  split; [reflexivity|].
  exact (headers_back_from_escaped_pairs (js "SEND")
           [(js "destination", js "/queue/a:b"); (js "note", js "x\y")]
           None (js "destination")
           ltac:(discriminate) ltac:(discriminate) eq_refl).
Defined.

Lemma replace_pair_nonempty (x y : code_unit) (rep s : jsstring) :
  rep <> [] -> s <> [] -> replace_pair x y rep s <> [].
Proof.
  intros Hrep Hs. destruct s as [|a [|b u]]; [now elim Hs | discriminate |].
  rewrite replace_pair_cons2. destruct ((a =? x) && (b =? y)); [|discriminate].
  destruct rep; [now elim Hrep | discriminate].
Qed.

Lemma replace_pair_end (x y r c : code_unit) (s : jsstring) :
  r <> c ->
  hd_error (rev s) <> Some c ->
  hd_error (rev (replace_pair x y [r] s)) <> Some c.
Proof.
  intros Hr.
  assert (Hsnoc : forall (a : code_unit) l, l <> [] ->
            hd_error (rev (a :: l)) = hd_error (rev l)).
  { intros a l Hl. cbn [rev]. destruct (rev l) eqn:E; [|reflexivity].
    apply (f_equal (@rev _)) in E. rewrite rev_involutive in E. now elim Hl. }
  assert (H : forall n s, (length s <= n)%nat -> hd_error (rev s) <> Some c ->
            hd_error (rev (replace_pair x y [r] s)) <> Some c).
  { clear s. induction n as [|n IH]; intros s Hn Hs.
    - destruct s; [exact Hs | simpl in Hn; lia].
    - destruct s as [|a [|b u]]; [exact Hs | exact Hs |].
      cbn [length] in Hn. rewrite replace_pair_cons2.
      destruct ((a =? x) && (b =? y)).
      + cbn [app]. destruct u as [|d u'].
        * cbn. congruence.
        * rewrite Hsnoc by (apply replace_pair_nonempty; discriminate).
          apply IH; [cbn [length] in *; lia|].
          rewrite !Hsnoc in Hs by discriminate. exact Hs.
      + rewrite Hsnoc by (apply replace_pair_nonempty; discriminate).
        apply IH; [cbn [length] in *; lia|].
        rewrite Hsnoc in Hs by discriminate. exact Hs. }
  intros Hs. now apply (H (length s)).
Qed.

(** X25: no decoded header value starts or ends with a space,
    whether unescaping applies or not: the padding of a value on the
    wire is lost. *)
Theorem decoded_values_have_no_padding (rawFrame : RawFrame) (esc : bool)
  (k v : jsstring) :
  obj_get k (headers (fst (fromRawFrame rawFrame esc))) = Some v ->
  hd_error v <> Some 32 /\ hd_error (rev v) <> Some 32.
Proof.
  rewrite fromRawFrame_get. intros G.
  apply decoded_headers_value in G as (header & _ & _ & ->).
  assert (Hhead : hd_error (trim (snd header)) <> Some 32)
    by (intros H; apply trim_head in H; discriminate H).
  assert (Hend : hd_error (rev (trim (snd header))) <> Some 32)
    by (intros H; apply trim_last in H; discriminate H).
  unfold header_value.
  destruct (esc && negb (str_eqb (raw_command rawFrame) CONNECT)
            && negb (str_eqb (raw_command rawFrame) CONNECTED)); [|now split].
  unfold hdrValueUnEscape. split.
  - repeat (apply replace_pair_head; [| discriminate | discriminate]). exact Hhead.
  - repeat (apply replace_pair_end; [discriminate|]). exact Hend.
Qed.

Lemma decoded_values_have_no_padding_witness :
  obj_get (js "b") (headers (fst (fromRawFrame three_headers true))) = Some (js "2") /\
  hd_error (js "2") <> Some 32.
Proof.
  split; [reflexivity|].
  exact (proj1 (decoded_values_have_no_padding three_headers true (js "b") (js "2")
                  eq_refl)).
Defined.
